(** * FlickrScraper: the response handler and the exploration loop

    A shallow embedding of [flickrscraper.py]:
    - [ResponseHandler.__call__], the callback that inspects every network
      response and saves the images it accepts;
    - the [while not done] loop of [main], which scrolls the result page
      until enough images were saved or patience ran out.

    Python integers are unbounded, so they are [Z]; [bytes] are lists of
    [byte]; [str] is [string]; the [set] of hashes is a [gset string] and
    the header [dict] a [gmap string string].  The libraries the script
    calls (hashlib, PIL, numpy's generator, playwright's page) are
    interfaces: type classes whose operations return a [result] where the
    library call may raise. *)

From Stdlib Require Import ZArith String Ascii List Bool Lia.
From Stdlib.Strings Require Import Byte.
From stdpp Require Import base gmap strings list pretty.

Local Open Scope Z_scope.

(** ** Exceptions and results *)

(** The exceptions the library calls of the script can raise.  The script
    has no [try] statement, so whatever a call raises leaves the function
    that made the call. *)
Inductive exn : Set :=
| PlaywrightError          (* [response.body()]: the body was not available *)
| UnidentifiedImageError   (* [Image.open]: the bytes are no image PIL knows *)
| OSError                  (* [image.save]: the file could not be written *)
| TimeoutError.            (* a playwright wait exceeded its [timeout] *)

Inductive result (A : Type) : Type :=
| Ok (a : A)
| Raised (e : exn).
Arguments Ok {A} a.
Arguments Raised {A} e.

Abbreviation bytes := (list byte).

(** ** Responses as playwright hands them to the callback *)

Record Request : Type := {
  method : string;
  url : string }.

(** [body] is a method in playwright: it fetches the bytes when called and
    may raise.  [headers] is a dict from header name to value. *)
Record Response : Type := {
  request : Request;
  headers : gmap string string;
  body : result bytes }.

(** ** [pathlib.Path]: the components of a path; [/] appends one *)

Definition Path : Type := list string.

Definition joinpath (p : Path) (name : string) : Path := (p ++ [name])%list.

(** ** The regular expression of line 35

    [re.match] anchors the pattern at the start of the string and accepts
    any rest.  The pattern of the script uses literal characters, [.] (any
    character but a newline) and [.*]; [re_compile] reads exactly that
    fragment. *)

Inductive re_item : Set :=
| Lit (c : ascii)
| Dot
| DotStar.

Fixpoint re_compile (s : string) : list re_item :=
  match s with
  | EmptyString => []
  | String "."%char (String "*"%char s') => DotStar :: re_compile s'
  | String "."%char s' => Dot :: re_compile s'
  | String c s' => Lit c :: re_compile s'
  end.

Definition newline : ascii := "010"%char.

Fixpoint re_match (p : list re_item) (s : string) {struct p} : bool :=
  match p with
  | [] => true
  | Lit c :: p' =>
      match s with
      | String a s' => bool_decide (a = c) && re_match p' s'
      | EmptyString => false
      end
  | Dot :: p' =>
      match s with
      | String a s' => negb (bool_decide (a = newline)) && re_match p' s'
      | EmptyString => false
      end
  | DotStar :: p' =>
      (fix star (s : string) : bool :=
         re_match p' s
         || match s with
            | String a s' => negb (bool_decide (a = newline)) && star s'
            | EmptyString => false
            end) s
  end.

Definition pattern : string := "https://live.staticflickr.com/.*".

(** [str.split(sep)] for a one-character separator, and [xs[-1]]. *)
Fixpoint str_split (sep : ascii) (s : string) : list string :=
  match s with
  | EmptyString => [EmptyString]
  | String c s' =>
      if bool_decide (c = sep) then EmptyString :: str_split sep s'
      else match str_split sep s' with
           | w :: ws => String c w :: ws
           | [] => [String c EmptyString]
           end
  end.

Definition last_item (xs : list string) : string := List.last xs EmptyString.

(** ** The libraries behind the handler *)

(** [hashlib]: [sha256(data).hexdigest()]. *)
Class Hashing : Type := {
  sha256_hexdigest : bytes -> string }.

(** [PIL]: [Image.open] decodes (or raises), [image.size] is the pair
    (width, height), and [image.save(path)] encodes the decoded image for
    the format the file name asks for and writes it: the bytes it returns
    here are the bytes that end up in the file. *)
Class Imaging : Type := {
  Image : Type;
  image_size : Image -> Z * Z;
  Image_open : bytes -> result Image;
  Image_save : Image -> Path -> result bytes }.

(** ** [ResponseHandler] *)

Record ResponseHandler : Type := {
  save_directory : Path;
  min_image_size : Z;
  max_image_size : Z;
  scraped_image_hashes : gset string }.

Definition __init__ (save_directory : Path) (min_image_size max_image_size : Z)
  : ResponseHandler :=
  {| save_directory := save_directory;
     min_image_size := min_image_size;
     max_image_size := max_image_size;
     scraped_image_hashes := ∅ |}.

Definition scrape_counter (self : ResponseHandler) : nat :=
  size (scraped_image_hashes self).

(** What one call of the handler does to the world, in order. *)
Inductive event : Type :=
| EvBody                              (* [response.body()] was called *)
| EvSave (p : Path) (written : bytes) (* [image.save] wrote a file *)
| EvInfo (msg : string).              (* [logger.info] *)

(** The result of one call: the exception that left it, if any, the
    handler afterwards and the events of the call. *)
Record Outcome : Type := {
  raised : option exn;
  after : ResponseHandler;
  events : list event }.

Definition returns (self : ResponseHandler) (evs : list event) : Outcome :=
  {| raised := None; after := self; events := evs |}.

Definition raises (e : exn) (self : ResponseHandler) (evs : list event) : Outcome :=
  {| raised := Some e; after := self; events := evs |}.

Definition add_hash (self : ResponseHandler) (image_hash : string) : ResponseHandler :=
  {| save_directory := save_directory self;
     min_image_size := min_image_size self;
     max_image_size := max_image_size self;
     scraped_image_hashes := {[image_hash]} ∪ scraped_image_hashes self |}.

(** The three tests made before the body is fetched (lines 37 and 39). *)
Definition method_and_url_ok (request : Request) : bool :=
  bool_decide (method request = "GET") && re_match (re_compile pattern) (url request).

Definition content_type_ok (response : Response) : bool :=
  bool_decide (headers response !! "content-type" = Some "image/jpeg").

(** The size test of lines 49 and 50 on [image.size]. *)
Definition size_in_range (self : ResponseHandler) (size : Z * Z) : bool :=
  (Z.min (fst size) (snd size) >=? min_image_size self)
  && (Z.max (fst size) (snd size) <=? max_image_size self).

Definition saved_message (request : Request) (file_name : string) : string :=
  "Saved " +:+ last_item (str_split "/"%char (url request)) +:+ " as " +:+ file_name.

(** [ResponseHandler.__call__], lines 33 to 57. *)
Definition __call__ `{Hashing} `{Imaging}
    (self : ResponseHandler) (response : Response) : Outcome :=
  let request := request response in
  if method_and_url_ok request then
    if content_type_ok response then
      match body response with
      | Raised e => raises e self [EvBody]
      | Ok image_data =>
          let image_hash := sha256_hexdigest image_data in
          if bool_decide (image_hash ∉ scraped_image_hashes self) then
            let file_name := image_hash +:+ ".jpg" in
            match Image_open image_data with
            | Raised e => raises e self [EvBody]
            | Ok image =>
                if size_in_range self (image_size image) then
                  match Image_save image (joinpath (save_directory self) file_name) with
                  | Raised e => raises e self [EvBody]
                  | Ok written =>
                      returns (add_hash self image_hash)
                        [EvBody;
                         EvSave (joinpath (save_directory self) file_name) written;
                         EvInfo (saved_message request file_name)]
                  end
                else returns self [EvBody]
            end
          else returns self [EvBody]
      end
    else returns self []
  else returns self [].

(** The files one call wrote. *)
Definition files_written (evs : list event) : list (Path * bytes) :=
  flat_map (fun ev => match ev with EvSave p w => [(p, w)] | _ => [] end) evs.

(** A call admits its response when it saves a file for it. *)
Definition admits (o : Outcome) : Prop :=
  exists p written, In (EvSave p written) (events o).

(** The handler after a sequence of responses.  A call that raises leaves
    the handler as it found it ([after] is then the handler before), so the
    next response meets the same object whatever became of the exception. *)
Definition handle_all `{Hashing} `{Imaging}
    (self : ResponseHandler) (responses : list Response) : ResponseHandler :=
  fold_left (fun s r => after (__call__ s r)) responses self.

(** ** The exploration loop of [main] *)

(** [numpy.random.Generator].  [rng.random()] returns a double [k / 2^53]
    with [0 <= k < 2^53]; [random] returns that numerator [k], so the test
    [rng.random() < 0.75] is the exact integer test [4 * k < 3 * 2^53].
    [integers lo hi] draws from [lo, hi).  Every draw also yields the next
    state of the generator. *)
Class Generator : Type := {
  rng_state : Type;
  default_rng : Z -> rng_state;
  random : rng_state -> Z * rng_state;
  integers : Z -> Z -> rng_state -> Z * rng_state }.

(** What the browser does during one iteration of the loop: whether the
    wait for the idle network returned ([network_idle] is false when
    [wait_for_load_state] ended with [TimeoutError] instead; a wait that
    never ends, as a timeout of 0 allows, is no iteration of any run),
    whether the page shows the button
    "Load more results", and how many images the response handler admitted
    while the page calls of the iteration ran.  The loop sees the handler
    through [scrape_counter] only. *)
Record Iteration : Type := {
  network_idle : bool;
  load_more : bool;
  new_scrapes : nat }.

(** A session: the images admitted while [page.goto] loaded the search
    page, and the iterations after it. *)
Record Session : Type := {
  scraped_on_load : nat;
  browser : nat -> Iteration }.

(** The arguments of [main] the loop reads. *)
Record Args : Type := {
  number_of_images : Z;
  patience : Z;
  timeout_seconds : Z;
  seed : Z }.

Inductive direction : Set := Down | Up.

(** What the loop asks of the page and of the logger, in order. *)
Inductive action : Type :=
| Debug (msg : string)
| Info (msg : string)
| WaitForLoadState (timeout : Z)
| ScrollBy (d : direction)
| QuerySelector
| Click
| WaitForTimeout (ms : Z)
| Close.

(** The variables of the loop, the number of iterations completed and the
    actions so far. *)
Record Loop `{Generator} : Type := {
  done : bool;
  patience_counter : Z;
  rng : rng_state;
  scrapes : Z;
  iterations : nat;
  log : list action }.

Inductive step_result `{Generator} : Type :=
| Next (st : Loop)
| Throw (e : exn) (st : Loop).

Definition scroll_choice (u : Z) : direction :=
  if 4 * u <? 3 * 2 ^ 53 then Down else Up.

Definition scroll_actions (d : direction) : list action :=
  match d with
  | Down => [Debug "Scrolling down"; ScrollBy Down]
  | Up => [Debug "Scrolling up"; ScrollBy Up]
  end.

(** The body of the loop, lines 99 to 129. *)
Definition iteration `{Generator} (args : Args) (env : Iteration) (st : Loop)
  : step_result :=
  let timeout := timeout_seconds args * 1000 in
  let current_scrape_counter := scrapes st in
  let waited := log st ++ [Debug "Waiting for page to load"; WaitForLoadState timeout] in
  if network_idle env then
    let (u, rng1) := random (rng st) in
    let scrolled := waited ++ scroll_actions (scroll_choice u) in
    let clicked :=
      scrolled ++ QuerySelector ::
        (if load_more env then [Info "Clicking on 'Load more results'"; Click] else []) in
    let (sleep_time, rng2) := integers 1000 2000 rng1 in
    let slept :=
      clicked ++ [Debug ("Sleeping for " +:+ pretty sleep_time +:+ " ms");
                  WaitForTimeout sleep_time] in
    let scrape_counter := current_scrape_counter + Z.of_nat (new_scrapes env) in
    let this_loop_scrapes := scrape_counter - current_scrape_counter in
    let patience_counter' :=
      if this_loop_scrapes =? 0 then patience_counter st + 1 else 0 in
    let logged :=
      if this_loop_scrapes =? 0
      then slept ++ [Debug ("Patience counter: " +:+ pretty patience_counter')]
      else slept in
    Next {| done := (scrape_counter >=? number_of_images args)
                    || (patience_counter' >=? patience args);
            patience_counter := patience_counter';
            rng := rng2;
            scrapes := scrape_counter;
            iterations := S (iterations st);
            log := logged |}
  else
    Throw TimeoutError
      {| done := done st;
         patience_counter := patience_counter st;
         rng := rng st;
         scrapes := scrapes st;
         iterations := iterations st;
         log := waited |}.

(** How a run ends: the loop left through [done], an exception left
    [main], or the fuel of the model ran out first. *)
Inductive Run `{Generator} : Type :=
| Finished (st : Loop)
| Aborted (e : exn) (st : Loop)
| OutOfFuel (st : Loop).

Definition final `{Generator} (r : Run) : Loop :=
  match r with
  | Finished st | Aborted _ st | OutOfFuel st => st
  end.

(** [while not done: ...], lines 98 to 129. *)
Fixpoint while_not_done `{Generator} (fuel : nat) (args : Args)
    (browser : nat -> Iteration) (st : Loop) : Run :=
  if done st then Finished st
  else
    match fuel with
    | O => OutOfFuel st
    | S fuel' =>
        match iteration args (browser (iterations st)) st with
        | Next st' => while_not_done fuel' args browser st'
        | Throw e st' => Aborted e st'
        end
    end.

Definition close `{Generator} (st : Loop) : Loop :=
  {| done := done st;
     patience_counter := patience_counter st;
     rng := rng st;
     scrapes := scrapes st;
     iterations := iterations st;
     log := log st ++ [Close] |}.

(** [main] from the moment [page.goto] has returned: the generator of line
    80, the loop of lines 96 to 129 and [browser.close()] of line 132.
    The directory, the url and the launch of the browser are not part of
    the model. *)
Definition main `{Generator} (fuel : nat) (args : Args) (session : Session) : Run :=
  let rng := default_rng (seed args) in
  match
    while_not_done fuel args (browser session)
      {| done := false;
         patience_counter := 0;
         rng := rng;
         scrapes := Z.of_nat (scraped_on_load session);
         iterations := 0;
         log := [] |}
  with
  | Finished st => Finished (close st)
  | r => r
  end.

(** The scroll directions and the pauses of a run, in order. *)
Definition scrolls (l : list action) : list direction :=
  flat_map (fun a => match a with ScrollBy d => [d] | _ => [] end) l.

Definition pauses (l : list action) : list Z :=
  flat_map (fun a => match a with WaitForTimeout ms => [ms] | _ => [] end) l.

(** The directions and pauses of the first [n] iterations as the generator
    alone gives them: two draws per iteration, [random] then [integers]. *)
Fixpoint pacing `{Generator} (n : nat) (g : rng_state) : list (direction * Z) :=
  match n with
  | O => []
  | S n' =>
      let (u, g1) := random g in
      let (ms, g2) := integers 1000 2000 g1 in
      (scroll_choice u, ms) :: pacing n' g2
  end.

(** ** Notions the statements use *)

Section Derived.
Context `{Hashing} `{Imaging}.

Implicit Types (self : ResponseHandler) (response : Response).

(** The file name and the path of the image with the given bytes. *)
Definition file_name_of (data : bytes) : string := sha256_hexdigest data +:+ ".jpg".

Definition path_of self (data : bytes) : Path :=
  joinpath (save_directory self) (file_name_of data).

(** The eight ways through [__call__], each with the tests that lead to it
    and what the call then does. *)
Inductive taken self response : Outcome -> Prop :=
| TakenOtherRequest :
    method_and_url_ok (request response) = false ->
    taken self response (returns self [])
| TakenOtherContent :
    method_and_url_ok (request response) = true ->
    content_type_ok response = false ->
    taken self response (returns self [])
| TakenNoBody e :
    method_and_url_ok (request response) = true ->
    content_type_ok response = true ->
    body response = Raised e ->
    taken self response (raises e self [EvBody])
| TakenDuplicate data :
    method_and_url_ok (request response) = true ->
    content_type_ok response = true ->
    body response = Ok data ->
    sha256_hexdigest data ∈ scraped_image_hashes self ->
    taken self response (returns self [EvBody])
| TakenUndecodable data e :
    method_and_url_ok (request response) = true ->
    content_type_ok response = true ->
    body response = Ok data ->
    sha256_hexdigest data ∉ scraped_image_hashes self ->
    Image_open data = Raised e ->
    taken self response (raises e self [EvBody])
| TakenOutOfRange data image :
    method_and_url_ok (request response) = true ->
    content_type_ok response = true ->
    body response = Ok data ->
    sha256_hexdigest data ∉ scraped_image_hashes self ->
    Image_open data = Ok image ->
    size_in_range self (image_size image) = false ->
    taken self response (returns self [EvBody])
| TakenSaveFailed data image e :
    method_and_url_ok (request response) = true ->
    content_type_ok response = true ->
    body response = Ok data ->
    sha256_hexdigest data ∉ scraped_image_hashes self ->
    Image_open data = Ok image ->
    size_in_range self (image_size image) = true ->
    Image_save image (path_of self data) = Raised e ->
    taken self response (raises e self [EvBody])
| TakenSaved data image written :
    method_and_url_ok (request response) = true ->
    content_type_ok response = true ->
    body response = Ok data ->
    sha256_hexdigest data ∉ scraped_image_hashes self ->
    Image_open data = Ok image ->
    size_in_range self (image_size image) = true ->
    Image_save image (path_of self data) = Ok written ->
    taken self response
      (returns (add_hash self (sha256_hexdigest data))
         [EvBody; EvSave (path_of self data) written;
          EvInfo (saved_message (request response) (file_name_of data))]).

End Derived.

(** The laws of numpy's generator the loop relies on. *)
Class GeneratorLaws `{Generator} : Prop := {
  random_range : forall g, 0 <= fst (random g) < 2 ^ 53;
  integers_range : forall lo hi g, lo < hi -> lo <= fst (integers lo hi g) < hi }.

Section DerivedLoop.
Context `{Generator}.

Implicit Types (st : Loop) (g : rng_state).

(** The two draws of one iteration. *)
Definition draws g : (direction * Z) * rng_state :=
  let (u, g1) := random g in
  let (ms, g2) := integers 1000 2000 g1 in
  ((scroll_choice u, ms), g2).

(** The generator after [n] iterations. *)
Fixpoint advance (n : nat) g : rng_state :=
  match n with
  | O => g
  | S n' => advance n' (snd (draws g))
  end.

(** The generator, the scroll directions and the pauses of a loop state
    are those of its number of iterations and the first generator. *)
Definition paced g st : Prop :=
  rng st = advance (iterations st) g /\
  scrolls (log st) = (pacing (iterations st) g).*1 /\
  pauses (log st) = (pacing (iterations st) g).*2.


End DerivedLoop.

(** ** The url of the search page, lines 77 and 78 *)

Definition in_string (c : ascii) (s : string) : bool :=
  existsb (Ascii.eqb c) (list_ascii_of_string s).

(** [urllib.parse.quote(string, safe)] on the UTF-8 bytes of the string:
    letters, digits and the characters [_.-~] are never quoted, the
    characters of [safe] neither; every other byte becomes [%] and its two
    upper-case hexadecimal digits. *)
Definition always_safe (c : ascii) : bool :=
  let n := N_of_ascii c in
  ((65 <=? n) && (n <=? 90) || (97 <=? n) && (n <=? 122)
   || (48 <=? n) && (n <=? 57))%N
  || in_string c "_.-~".

Definition hex_upper (n : N) : ascii :=
  match n with
  | 0 => "0" | 1 => "1" | 2 => "2" | 3 => "3" | 4 => "4" | 5 => "5"
  | 6 => "6" | 7 => "7" | 8 => "8" | 9 => "9" | 10 => "A" | 11 => "B"
  | 12 => "C" | 13 => "D" | 14 => "E" | _ => "F"
  end%N%char.

Definition percent_encode (c : ascii) : string :=
  let n := N_of_ascii c in
  String "%" (String (hex_upper (n / 16)) (String (hex_upper (n mod 16)) EmptyString)).

Definition unquoted (safe : string) (c : ascii) : bool :=
  always_safe c || in_string c safe.

Fixpoint quote (s safe : string) : string :=
  match s with
  | EmptyString => EmptyString
  | String c s' =>
      (if unquoted safe c then String c EmptyString else percent_encode c)
      +:+ quote s' safe
  end.

Definition search_url (query : string) : string :=
  quote ("https://www.flickr.com/search/?text=" +:+ query +:+ "&view_all=1") ":/?&=".

(** ** A session of the handler, and what the loop observes *)

(** The events of a sequence of calls, one response after the other. *)
Fixpoint session_events `{Hashing} `{Imaging}
    (self : ResponseHandler) (responses : list Response) : list event :=
  match responses with
  | [] => []
  | r :: rs => events (__call__ self r) ++ session_events (after (__call__ self r)) rs
  end.

(** The hash a response stands for when a handler with this directory and
    this size range would save it, the hashes seen so far left aside. *)
Definition accepted_hash `{Hashing} `{Imaging}
    (self : ResponseHandler) (response : Response) : option string :=
  if method_and_url_ok (request response) && content_type_ok response then
    match body response with
    | Ok data =>
        match Image_open data with
        | Ok image =>
            if size_in_range self (image_size image) then
              match Image_save image (path_of self data) with
              | Ok _ => Some (sha256_hexdigest data)
              | Raised _ => None
              end
            else None
        | Raised _ => None
        end
    | Raised _ => None
    end
  else None.

(** The scrape counter after [n] iterations of a session. *)
Fixpoint admitted_by (session : Session) (n : nat) : Z :=
  match n with
  | O => Z.of_nat (scraped_on_load session)
  | S k => admitted_by session k + Z.of_nat (new_scrapes (browser session k))
  end.

(** The number of iterations without a new image that end at iteration
    [n]. *)
Fixpoint idle_streak (page : nat -> Iteration) (n : nat) : Z :=
  match n with
  | O => 0
  | S k =>
      if bool_decide (new_scrapes (page k) = 0%nat) then idle_streak page k + 1 else 0
  end.

(** The iterations among the first [n] in which the page shows the button. *)
Fixpoint buttons (page : nat -> Iteration) (n : nat) : nat :=
  match n with
  | O => O
  | S k => (buttons page k + if load_more (page k) then 1 else 0)%nat
  end.

Definition clicks (l : list action) : nat :=
  length (flat_map (fun a => match a with Click => [a] | _ => [] end) l).

Definition queries (l : list action) : nat :=
  length (flat_map (fun a => match a with QuerySelector => [a] | _ => [] end) l).

Definition total_pause (l : list action) : Z := foldr Z.add 0 (pauses l).

(** The loop stops after iteration [k]: the target is reached or the last
    [patience] iterations brought no image. *)
Definition stops_at (args : Args) (session : Session) (k : nat) : Prop :=
  number_of_images args <= admitted_by session k \/
  patience args <= idle_streak (browser session) k.

(** A loop state agrees with the session it runs in. *)
Definition accounted `{Generator} (args : Args) (session : Session) (st : Loop) : Prop :=
  scrapes st = admitted_by session (iterations st) /\
  patience_counter st = idle_streak (browser session) (iterations st) /\
  clicks (log st) = buttons (browser session) (iterations st) /\
  queries (log st) = iterations st /\
  ~ In Close (log st) /\
  (forall k, (1 <= k < iterations st)%nat -> ~ stops_at args session k) /\
  (if iterations st is O then done st = false
   else done st = true <-> stops_at args session (iterations st)).

(** The character occurs in the string. *)
Definition has_char (c : ascii) (s : string) : Prop := In c (list_ascii_of_string s).

(** ** Test doubles

    Small executable stand-ins for the libraries, used to run the model on
    concrete inputs. *)
Module Stub.

(** A digest that writes every byte as two hexadecimal digits. *)
Definition hex_digit (n : N) : ascii :=
  match n with
  | 0 => "0" | 1 => "1" | 2 => "2" | 3 => "3" | 4 => "4" | 5 => "5"
  | 6 => "6" | 7 => "7" | 8 => "8" | 9 => "9" | 10 => "a" | 11 => "b"
  | 12 => "c" | 13 => "d" | 14 => "e" | _ => "f"
  end%N%char.

Definition hex_of_byte (b : byte) : string :=
  let n := Byte.to_N b in
  String (hex_digit (n / 16)) (String (hex_digit (n mod 16)) EmptyString).

Fixpoint hexdump (data : bytes) : string :=
  match data with
  | [] => EmptyString
  | b :: data' => hex_of_byte b +:+ hexdump data'
  end.

#[global] Instance hashing : Hashing := {| sha256_hexdigest := hexdump |}.

(** A toy raster format: one byte of width, one of height, then at least
    width * height bytes of pixels; whatever follows the pixels is a
    trailer the decoder skips.  Saving encodes the decoded image anew: it
    writes the header and the pixels, and nothing of what the decoder
    skipped. *)
Record raster : Type := {
  width : byte;
  height : byte;
  pixels : bytes }.

Definition raster_size (img : raster) : Z * Z :=
  (Z.of_N (Byte.to_N (width img)), Z.of_N (Byte.to_N (height img))).

Definition raster_open (data : bytes) : result raster :=
  match data with
  | w :: h :: rest =>
      let n := N.to_nat (Byte.to_N w * Byte.to_N h) in
      if (n <=? length rest)%nat
      then Ok {| width := w; height := h; pixels := take n rest |}
      else Raised UnidentifiedImageError
  | _ => Raised UnidentifiedImageError
  end.

Definition raster_save (img : raster) (p : Path) : result bytes :=
  Ok (width img :: height img :: pixels img).

#[global] Instance imaging : Imaging :=
  {| Image := raster;
     image_size := raster_size;
     Image_open := raster_open;
     Image_save := raster_save |}.

(** A linear congruential generator on 64 bits. *)
Definition lcg_next (g : Z) : Z :=
  (g * 6364136223846793005 + 1442695040888963407) mod 2 ^ 64.

Definition lcg_random (g : Z) : Z * Z := ((g mod 2 ^ 64) / 2 ^ 11, lcg_next g).

Definition lcg_integers (lo hi g : Z) : Z * Z := (lo + g mod (hi - lo), lcg_next g).

#[global] Instance generator : Generator :=
  {| rng_state := Z;
     default_rng := lcg_next;
     random := lcg_random;
     integers := lcg_integers |}.

(** A handler as [main] builds it, with a small size range. *)
Definition handler : ResponseHandler :=
  __init__ ["flickr_images"; "cats"]%string 2 3.

Definition jpeg_headers : gmap string string :=
  {[ "content-type"%string := "image/jpeg"%string ]}.

Definition get (u : string) (hs : gmap string string) (b : result bytes) : Response :=
  {| request := {| method := "GET"; url := u |}; headers := hs; body := b |}.

Definition photo_url : string := "https://live.staticflickr.com/65535/1_ab_b.jpg".

(** A 2 by 2 image with a one-byte trailer. *)
Definition photo : bytes := [x02; x02; x0a; x0b; x0c; x0d; xff].

(** Bytes too short to be an image. *)
Definition garbage : bytes := [x05].

(** A browser whose network always becomes idle and that never yields a
    new image. *)
Definition stalled : Session :=
  {| scraped_on_load := 0;
     browser := fun _ => {| network_idle := true; load_more := false; new_scrapes := 0 |} |}.

(** A browser whose first wait for the idle network times out. *)
Definition never_idle : Session :=
  {| scraped_on_load := 0;
     browser := fun _ => {| network_idle := false; load_more := false; new_scrapes := 0 |} |}.

(** A browser that shows the button and yields one image per iteration. *)
Definition productive : Session :=
  {| scraped_on_load := 0;
     browser := fun _ => {| network_idle := true; load_more := true; new_scrapes := 1 |} |}.

Definition args (target patience_ceiling : Z) : Args :=
  {| number_of_images := target;
     patience := patience_ceiling;
     timeout_seconds := 60;
     seed := 42 |}.

End Stub.

(** A second image library for the test doubles: it reads binary greymaps
    (PGM, the files that start with [P5]) with one-digit width and height
    and 255 as the largest sample, as PIL does whatever the content type
    says, and it saves as PIL saves a [.jpg]: every JPEG stream starts
    with the marker FF D8 and ends with the marker FF D9.  What lies
    between the markers is not modelled; the samples stand for it.  As in
    PIL, [open] reads the header only, and a file with too few samples
    fails when it is saved. *)
Module Pgm.

Record greymap : Type := {
  width : Z;
  height : Z;
  samples : bytes }.

Definition is_digit (n : N) : bool := ((48 <=? n) && (n <=? 57))%N.

Definition greymap_open (data : bytes) : result greymap :=
  match map Byte.to_N data with
  | 80 :: 53 :: 10 :: w :: 32 :: h :: 10 :: 50 :: 53 :: 53 :: 10 :: _ =>
      if is_digit w && is_digit h
      then Ok {| width := Z.of_N (w - 48);
                 height := Z.of_N (h - 48);
                 samples := drop 11 data |}
      else Raised UnidentifiedImageError
  | _ => Raised UnidentifiedImageError
  end%N.

Definition greymap_save (img : greymap) (p : Path) : result bytes :=
  let n := Z.to_nat (width img * height img) in
  if (n <=? length (samples img))%nat
  then Ok ([xff; xd8] ++ take n (samples img) ++ [xff; xd9])
  else Raised OSError.

Definition imaging : Imaging :=
  {| Image := greymap;
     image_size := fun img => (width img, height img);
     Image_open := greymap_open;
     Image_save := greymap_save |}.

(** The file [P5\n2 2\n255\n] and four samples: a 2 by 2 greymap. *)
Definition photo : bytes :=
  [x50; x35; x0a; x32; x20; x32; x0a; x32; x35; x35; x0a; x0a; x0b; x0c; x0d].

(** The same header with two samples only. *)
Definition truncated : bytes :=
  [x50; x35; x0a; x32; x20; x32; x0a; x32; x35; x35; x0a; x0a; x0b].

End Pgm.

(** * The response handler *)

Section Handler.
Context `{Hashing} `{Imaging}.

Implicit Types (self : ResponseHandler) (response : Response) (o : Outcome).

Lemma call_taken self response : taken self response (__call__ self response).
Proof.
  unfold __call__.
  destruct (method_and_url_ok (request response)) eqn:Hreq;
    [|by apply TakenOtherRequest].
  destruct (content_type_ok response) eqn:Hct; [|by apply TakenOtherContent].
  destruct (body response) as [data|e] eqn:Hbody; [|by apply TakenNoBody].
  case_bool_decide as Hnew.
  2:{ eapply TakenDuplicate; eauto. }
  destruct (Image_open data) as [image|e] eqn:Hopen;
    [|by eapply TakenUndecodable].
  destruct (size_in_range self (image_size image)) eqn:Hsize;
    [|by eapply TakenOutOfRange].
  destruct (Image_save image _) as [written|e] eqn:Hsave.
  - by eapply TakenSaved.
  - by eapply TakenSaveFailed.
Qed.

(** The three early tests, spelled out. *)
Lemma method_and_url_ok_true (request : Request) :
  method_and_url_ok request = true <->
  method request = "GET" /\ re_match (re_compile pattern) (url request) = true.
Proof.
  unfold method_and_url_ok. rewrite andb_true_iff, bool_decide_eq_true. tauto.
Qed.

Lemma content_type_ok_true response :
  content_type_ok response = true <->
  headers response !! "content-type" = Some "image/jpeg".
Proof. unfold content_type_ok. apply bool_decide_eq_true. Qed.

Lemma size_in_range_true self (width height : Z) :
  size_in_range self (width, height) = true <->
  Z.min width height >= min_image_size self /\
  Z.max width height <= max_image_size self.
Proof.
  unfold size_in_range; cbn [fst snd].
  rewrite andb_true_iff, Z.geb_le, Z.leb_le. lia.
Qed.

(** A call only ever adds to the set of hashes, and at most one. *)
Lemma call_hashes_grow self response :
  scraped_image_hashes self ⊆ scraped_image_hashes (after (__call__ self response)).
Proof.
  destruct (call_taken self response); cbn; set_solver.
Qed.

Lemma handle_all_hashes_grow (responses : list Response) self :
  scraped_image_hashes self ⊆ scraped_image_hashes (handle_all self responses).
Proof.
  revert self. induction responses as [|r rs IH]; intros self; cbn; [done|].
  etrans; [apply (call_hashes_grow self r)|apply IH].
Qed.

Lemma call_counter_steps self response :
  scrape_counter (after (__call__ self response)) = scrape_counter self \/
  scrape_counter (after (__call__ self response)) = S (scrape_counter self).
Proof.
  destruct (call_taken self response); cbn; auto.
  right. unfold scrape_counter; cbn.
  rewrite size_union by set_solver. by rewrite size_singleton.
Qed.

(** What an admitted response went through. *)
Lemma admits_inv self response :
  admits (__call__ self response) ->
  exists data image written,
    method_and_url_ok (request response) = true /\
    content_type_ok response = true /\
    body response = Ok data /\
    (sha256_hexdigest data ∉ scraped_image_hashes self) /\
    Image_open data = Ok image /\
    size_in_range self (image_size image) = true /\
    Image_save image (path_of self data) = Ok written /\
    __call__ self response =
      returns (add_hash self (sha256_hexdigest data))
        [EvBody; EvSave (path_of self data) written;
         EvInfo (saved_message (request response) (file_name_of data))].
Proof.
  intros (p & w & Hin).
  destruct (call_taken self response) as [| | | | | | |data image written];
    cbn in Hin; try (intuition discriminate).
  exists data, image, written. by repeat split.
Qed.

End Handler.

(** Two facts about the same call of a library give the same result. *)
Ltac same_call :=
  repeat match goal with
    | H1 : body ?r = _, H2 : body ?r = _ |- _ => rewrite H1 in H2; simplify_eq
    | H1 : Image_open ?d = _, H2 : Image_open ?d = _ |- _ =>
        rewrite H1 in H2; simplify_eq
    end.

Section HandlerClaims.
Context `{Hashing} `{Imaging}.

Implicit Types (self : ResponseHandler) (response : Response).

(** C1, as amended.  The handler has no exception handling.  A call raises
    exactly when the response passes the method, url and content-type tests
    and then a library call raises: the fetch of the body, or, for bytes not
    seen before, the decoding, or, for an image within the size range, the
    save.  The exception leaves the call with the handler unchanged, nothing
    saved and nothing logged.  A response that fails one of the three tests,
    repeats a hash or decodes to a size out of range returns normally and is
    not admitted. *)
Theorem call_raises_exactly_when_a_library_call_raises self response (e : exn) :
  (raised (__call__ self response) = Some e <->
     method_and_url_ok (request response) = true /\
     content_type_ok response = true /\
     (body response = Raised e \/
      exists data, body response = Ok data /\
        (sha256_hexdigest data ∉ scraped_image_hashes self) /\
        (Image_open data = Raised e \/
         exists image, Image_open data = Ok image /\
           size_in_range self (image_size image) = true /\
           Image_save image (path_of self data) = Raised e)))
  /\ (raised (__call__ self response) = Some e ->
      __call__ self response = raises e self [EvBody])
  /\ (method_and_url_ok (request response) = false \/
      content_type_ok response = false ->
      __call__ self response = returns self [])
  /\ (forall data, body response = Ok data ->
      (sha256_hexdigest data ∈ scraped_image_hashes self) \/
      (exists image, Image_open data = Ok image /\
         size_in_range self (image_size image) = false) ->
      raised (__call__ self response) = None /\
      after (__call__ self response) = self /\
      files_written (events (__call__ self response)) = []).
Proof.
  split; [split|split; [|split]].
  - intros Hr. destruct (call_taken self response); cbn in Hr;
      try discriminate; injection Hr as ->; repeat split; eauto 10.
  - intros (Hreq & Hct & Hlib). unfold __call__. rewrite Hreq, Hct.
    destruct Hlib as [->|(data & -> & Hnew & Hlib)]; [done|].
    rewrite bool_decide_eq_true_2 by done.
    destruct Hlib as [->|(image & -> & -> & Hsave)]; [done|].
    fold (file_name_of data). fold (path_of self data). by rewrite Hsave.
  - intros Hr. destruct (call_taken self response); cbn in Hr;
      try discriminate; by injection Hr as ->.
  - intros [Hreq|Hct]; unfold __call__.
    + by rewrite Hreq.
    + rewrite Hct. by destruct (method_and_url_ok _).
  - intros data Hbody [Hdup|(image & Hopen & Hsize)];
      destruct (call_taken self response); cbn; same_call; done || congruence.
Qed.

(** C2, as amended.  For every response that passes all admission checks
    (method, url, content type, a hash not seen before, bytes that decode,
    a size within the range) the handler asks [image.save] to save the
    decoded image in the configured output directory under the name made
    of the hexadecimal SHA-256 digest of the raw body and [.jpg].  When
    the save succeeds, that is the one file written, and its content is
    what [image.save] wrote for the decoded image, not the raw body
    itself; when the save raises, no file is recorded, the hash is not
    added and the exception leaves the handler.  No other response gets a
    file. *)
Theorem saved_file_is_the_decoded_image_saved self response
    (data : bytes) (image : Image) :
  method_and_url_ok (request response) = true ->
  content_type_ok response = true ->
  body response = Ok data ->
  sha256_hexdigest data ∉ scraped_image_hashes self ->
  Image_open data = Ok image ->
  size_in_range self (image_size image) = true ->
  path_of self data
    = joinpath (save_directory self) (sha256_hexdigest data +:+ ".jpg") /\
  match Image_save image (path_of self data) with
  | Ok written =>
      raised (__call__ self response) = None /\
      files_written (events (__call__ self response)) = [(path_of self data, written)] /\
      scraped_image_hashes (after (__call__ self response))
        = {[sha256_hexdigest data]} ∪ scraped_image_hashes self
  | Raised e =>
      raised (__call__ self response) = Some e /\
      files_written (events (__call__ self response)) = [] /\
      after (__call__ self response) = self
  end /\
  (admits (__call__ self response) <->
   exists written, Image_save image (path_of self data) = Ok written) /\
  (forall other : Response,
     admits (__call__ self other) ->
     exists data' image' written',
       method_and_url_ok (request other) = true /\
       content_type_ok other = true /\
       body other = Ok data' /\
       (sha256_hexdigest data' ∉ scraped_image_hashes self) /\
       Image_open data' = Ok image' /\
       size_in_range self (image_size image') = true /\
       Image_save image' (path_of self data') = Ok written' /\
       files_written (events (__call__ self other)) = [(path_of self data', written')]).
Proof.
  intros Hreq Hct Hbody Hnew Hopen Hsize.
  assert (Hcall : __call__ self response =
    match Image_save image (path_of self data) with
    | Ok written =>
        returns (add_hash self (sha256_hexdigest data))
          [EvBody; EvSave (path_of self data) written;
           EvInfo (saved_message (request response) (file_name_of data))]
    | Raised e => raises e self [EvBody]
    end).
  { unfold __call__. rewrite Hreq, Hct, Hbody, Hopen, Hsize.
    by rewrite bool_decide_eq_true_2 by done. }
  split_and!.
  - done.
  - rewrite Hcall. by destruct (Image_save image (path_of self data)).
  - rewrite Hcall. destruct (Image_save image (path_of self data)) as [written|e].
    + split; [by eexists|]. intros _. exists (path_of self data), written.
      cbn. tauto.
    + split; [|by intros [? ?]]. intros (p & w & Hin). cbn in Hin.
      intuition discriminate.
  - intros other Hadm.
    destruct (admits_inv self other Hadm)
      as (data' & image' & written' & ? & ? & ? & ? & ? & ? & ? & Hother).
    exists data', image', written'. split_and!; try done. by rewrite Hother.
Qed.

(** C3.  Once some bytes were admitted, feeding the same bytes again, at
    once or after any other responses of the session, writes no file and
    leaves the hash set as it is: the counter went up by one at the first
    call and does not move at the second. *)
Theorem admission_is_idempotent self (first : Response)
    (later : list Response) (again : Response) :
  admits (__call__ self first) ->
  body again = body first ->
  scrape_counter (after (__call__ self first)) = S (scrape_counter self) /\
  (let session := handle_all (after (__call__ self first)) later in
   raised (__call__ session again) = None /\
   after (__call__ session again) = session /\
   files_written (events (__call__ session again)) = []) /\
  scrape_counter (after (__call__ (after (__call__ self first)) again))
    = S (scrape_counter self).
Proof.
  intros Hadm Hsame.
  destruct (admits_inv self first Hadm)
    as (data & image & written & _ & _ & Hbody & Hnew & _ & _ & _ & Hcall).
  assert (Hone : scrape_counter (after (__call__ self first)) = S (scrape_counter self)).
  { rewrite Hcall; unfold scrape_counter; cbn.
    rewrite size_union by set_solver. by rewrite size_singleton. }
  assert (Hin : sha256_hexdigest data ∈
                scraped_image_hashes (after (__call__ self first))).
  { rewrite Hcall; cbn. set_solver. }
  assert (Hquiet : forall session,
    sha256_hexdigest data ∈ scraped_image_hashes session ->
    raised (__call__ session again) = None /\
    after (__call__ session again) = session /\
    files_written (events (__call__ session again)) = []).
  { intros session Hseen.
    rewrite <- Hsame in Hbody.
    destruct (call_taken session again); cbn; same_call; done. }
  split; [done|]. split.
  - apply Hquiet. by apply handle_all_hashes_grow.
  - destruct (Hquiet _ Hin) as (_ & -> & _). done.
Qed.

(** C5.  Whether a decoded image is admitted by its dimensions is decided
    by [min(width, height) >= min_image_size] and
    [max(width, height) <= max_image_size]: within the range the decoded
    image itself is handed to [image.save]; outside it the call returns
    with nothing saved.  At the boundaries, for a range that is not empty,
    [min] by [min] and [max] by [max] pass, [min - 1] by [min] and
    [max + 1] by [max] do not. *)
Theorem dimension_gate self response (data : bytes) (image : Image)
    (width height : Z) :
  method_and_url_ok (request response) = true ->
  content_type_ok response = true ->
  body response = Ok data ->
  sha256_hexdigest data ∉ scraped_image_hashes self ->
  Image_open data = Ok image ->
  image_size image = (width, height) ->
  let lo := min_image_size self in
  let hi := max_image_size self in
  (admits (__call__ self response) ->
     Z.min width height >= lo /\ Z.max width height <= hi) /\
  (Z.min width height >= lo /\ Z.max width height <= hi ->
     __call__ self response =
       match Image_save image (path_of self data) with
       | Ok written =>
           returns (add_hash self (sha256_hexdigest data))
             [EvBody; EvSave (path_of self data) written;
              EvInfo (saved_message (request response) (file_name_of data))]
       | Raised e => raises e self [EvBody]
       end) /\
  (~ (Z.min width height >= lo /\ Z.max width height <= hi) ->
     __call__ self response = returns self [EvBody]) /\
  (lo <= hi ->
     size_in_range self (lo, lo) = true /\ size_in_range self (hi, hi) = true) /\
  size_in_range self (lo - 1, lo) = false /\
  size_in_range self (hi + 1, hi) = false.
Proof.
  intros Hreq Hct Hbody Hnew Hopen Hsize lo hi.
  assert (Hcall : __call__ self response =
    if size_in_range self (width, height) then
      match Image_save image (path_of self data) with
      | Ok written =>
          returns (add_hash self (sha256_hexdigest data))
            [EvBody; EvSave (path_of self data) written;
             EvInfo (saved_message (request response) (file_name_of data))]
      | Raised e => raises e self [EvBody]
      end
    else returns self [EvBody]).
  { unfold __call__. rewrite Hreq, Hct, Hbody, Hopen, Hsize.
    by rewrite bool_decide_eq_true_2 by done. }
  pose proof (size_in_range_true self width height) as Hiff.
  split_and!.
  - intros (p & w & Hin). rewrite Hcall in Hin.
    destruct (size_in_range self (width, height)); [by apply Hiff|].
    cbn in Hin. intuition discriminate.
  - intros Hin. rewrite Hcall. apply Hiff in Hin. by rewrite Hin.
  - intros Hout. rewrite Hcall.
    destruct (size_in_range self (width, height)); [|done].
    destruct Hout. by apply Hiff.
  - intros Hne. split; apply size_in_range_true; subst lo hi; lia.
  - apply not_true_is_false. rewrite size_in_range_true. subst lo. lia.
  - apply not_true_is_false. rewrite size_in_range_true. subst hi. lia.
Qed.

(** C6.  The body of a response is fetched, and a response admitted, only
    when the method is GET, the url matches the pattern and the
    content-type header is [image/jpeg]: a request with another method, a
    url that does not match, or a content type [image/png] returns at once
    with nothing fetched and nothing saved. *)
Theorem gates_guard_body_and_admission self response :
  (In EvBody (events (__call__ self response)) ->
     method (request response) = "GET" /\
     re_match (re_compile pattern) (url (request response)) = true /\
     headers response !! "content-type" = Some "image/jpeg") /\
  (admits (__call__ self response) \/ after (__call__ self response) <> self ->
     In EvBody (events (__call__ self response))) /\
  (method (request response) <> "GET" ->
     __call__ self response = returns self []) /\
  (re_match (re_compile pattern) (url (request response)) = false ->
     __call__ self response = returns self []) /\
  (headers response !! "content-type" = Some "image/png" ->
     __call__ self response = returns self []).
Proof.
  split_and!.
  - intros Hin. destruct (call_taken self response); cbn in Hin;
      try tauto; split_and!;
      by (apply method_and_url_ok_true || apply content_type_ok_true).
  - intros [(p & w & Hin)|Hne]; destruct (call_taken self response);
      cbn in *; try tauto; try (intuition discriminate).
  - intros Hm. unfold __call__, method_and_url_ok.
    by rewrite bool_decide_eq_false_2.
  - intros Hu. unfold __call__, method_and_url_ok.
    rewrite Hu, andb_false_r. done.
  - intros Hpng. unfold __call__, content_type_ok. rewrite Hpng.
    rewrite bool_decide_eq_false_2 by discriminate.
    by destruct (method_and_url_ok _).
Qed.

(** C10.  The content-type test is equality with the string [image/jpeg]:
    any other value, such as [image/jpeg; charset=utf-8] or [Image/JPEG],
    and a missing header make the call return at once, without an
    exception and with nothing admitted. *)
Theorem content_type_must_be_exact self response :
  (content_type_ok response = true <->
     headers response !! "content-type" = Some "image/jpeg") /\
  (headers response !! "content-type" <> Some "image/jpeg" ->
     __call__ self response = returns self []) /\
  (headers response !! "content-type" = Some "image/jpeg; charset=utf-8" ->
     __call__ self response = returns self []) /\
  (headers response !! "content-type" = Some "Image/JPEG" ->
     __call__ self response = returns self []) /\
  (headers response !! "content-type" = None ->
     __call__ self response = returns self [] /\
     raised (__call__ self response) = None).
Proof.
  assert (Hother : headers response !! "content-type" <> Some "image/jpeg" ->
                   __call__ self response = returns self []).
  { intros Hne. unfold __call__, content_type_ok.
    rewrite bool_decide_eq_false_2 by done. by destruct (method_and_url_ok _). }
  split_and!; [apply content_type_ok_true|done|..].
  - intros Hh. apply Hother. by rewrite Hh.
  - intros Hh. apply Hother. by rewrite Hh.
  - intros Hh. rewrite Hother by (by rewrite Hh). done.
Qed.

End HandlerClaims.

(** * The exploration loop *)

Section Loop.
Context `{Generator}.

Implicit Types (st : Loop) (args : Args) (env : Iteration) (g : rng_state).

Lemma pacing_cons (n : nat) g :
  pacing (S n) g = fst (draws g) :: pacing n (snd (draws g)).
Proof.
  cbn. unfold draws.
  destruct (random g) as [u g1]. by destruct (integers 1000 2000 g1) as [ms g2].
Qed.

Lemma pacing_snoc (n : nat) g :
  pacing (S n) g = pacing n g ++ [fst (draws (advance n g))].
Proof.
  revert g. induction n as [|n IH]; intros g.
  - by rewrite pacing_cons.
  - rewrite pacing_cons, IH. by rewrite (pacing_cons n g).
Qed.

Lemma advance_succ (n : nat) g : advance (S n) g = snd (draws (advance n g)).
Proof. revert g. induction n as [|n IH]; intros g; [done|]. apply (IH (snd (draws g))). Qed.

Lemma pacing_take (n m : nat) g : (n <= m)%nat -> take n (pacing m g) = pacing n g.
Proof.
  revert m g. induction n as [|n IH]; intros m g Hle; [done|].
  destruct m as [|m]; [lia|].
  rewrite !pacing_cons. cbn. f_equal. apply IH. lia.
Qed.

Lemma scrolls_app (l1 l2 : list action) : scrolls (l1 ++ l2) = scrolls l1 ++ scrolls l2.
Proof. apply flat_map_app. Qed.

Lemma pauses_app (l1 l2 : list action) : pauses (l1 ++ l2) = pauses l1 ++ pauses l2.
Proof. apply flat_map_app. Qed.

(** One iteration whose wait for the idle network succeeds. *)
Lemma iteration_next args env st :
  network_idle env = true ->
  exists st',
    iteration args env st = Next st' /\
    iterations st' = S (iterations st) /\
    scrapes st' = scrapes st + Z.of_nat (new_scrapes env) /\
    patience_counter st' =
      (if bool_decide (new_scrapes env = 0%nat) then patience_counter st + 1 else 0) /\
    done st' = (scrapes st' >=? number_of_images args)
               || (patience_counter st' >=? patience args) /\
    rng st' = snd (draws (rng st)) /\
    scrolls (log st') = scrolls (log st) ++ [fst (fst (draws (rng st)))] /\
    pauses (log st') = pauses (log st) ++ [snd (fst (draws (rng st)))] /\
    (In Close (log st') -> In Close (log st)).
Proof.
  intros Hidle. unfold iteration, draws. rewrite Hidle.
  destruct (random (rng st)) as [u g1].
  destruct (integers 1000 2000 g1) as [ms g2].
  eexists. split; [reflexivity|]. cbn [iterations scrapes patience_counter done rng log fst snd].
  assert (Hzero : (scrapes st + Z.of_nat (new_scrapes env) - scrapes st =? 0)
                  = bool_decide (new_scrapes env = 0%nat)).
  { case_bool_decide as Hn.
    - rewrite Hn. apply Z.eqb_eq. lia.
    - apply Z.eqb_neq. lia. }
  rewrite Hzero.
  split_and!; try done.
  - case_bool_decide; rewrite !scrolls_app;
      destruct (scroll_choice u), (load_more env); cbn;
      by rewrite ?app_nil_r.
  - case_bool_decide; rewrite !pauses_app;
      destruct (scroll_choice u), (load_more env); cbn;
      by rewrite ?app_nil_r.
  - case_bool_decide; rewrite !in_app_iff;
      destruct (scroll_choice u), (load_more env); cbn;
      intuition discriminate.
Qed.

(** One iteration whose wait for the idle network times out. *)
Lemma iteration_throw args env st :
  network_idle env = false ->
  iteration args env st =
    Throw TimeoutError
      {| done := done st;
         patience_counter := patience_counter st;
         rng := rng st;
         scrapes := scrapes st;
         iterations := iterations st;
         log := log st ++ [Debug "Waiting for page to load";
                           WaitForLoadState (timeout_seconds args * 1000)] |}.
Proof. intros Hidle. unfold iteration. by rewrite Hidle. Qed.

End Loop.

Section LoopClaims.
Context `{Generator}.

Implicit Types (st : Loop) (args : Args) (env : Iteration) (g : rng_state).

Lemma iteration_paced g args env st :
  paced g st ->
  match iteration args env st with
  | Next st' | Throw _ st' => paced g st'
  end.
Proof.
  intros (Hrng & Hscrolls & Hpauses).
  destruct (network_idle env) eqn:Hidle.
  - destruct (iteration_next args env st Hidle)
      as (st' & -> & Hn & _ & _ & _ & Hrng' & Hs & Hp & _).
    unfold paced. rewrite Hn, Hrng', Hs, Hp, Hscrolls, Hpauses, Hrng.
    rewrite pacing_snoc, !fmap_app, advance_succ. done.
  - rewrite (iteration_throw args env st Hidle). unfold paced; cbn.
    rewrite scrolls_app, pauses_app; cbn. by rewrite !app_nil_r.
Qed.

Lemma while_not_done_paced g (fuel : nat) args (browser : nat -> Iteration) st :
  paced g st -> paced g (final (while_not_done fuel args browser st)).
Proof.
  revert st. induction fuel as [|fuel IH]; intros st Hp; cbn.
  - by destruct (done st).
  - destruct (done st); [done|].
    pose proof (iteration_paced g args (browser (iterations st)) st Hp) as Hstep.
    destruct (iteration args (browser (iterations st)) st) as [st'|e st'];
      [by apply IH|done].
Qed.

Lemma main_paced (fuel : nat) args (session : Session) :
  paced (default_rng (seed args)) (final (main fuel args session)).
Proof.
  unfold main.
  match goal with |- context [while_not_done _ _ _ ?st0] =>
    pose proof (while_not_done_paced (default_rng (seed args)) fuel args
                  (browser session) st0) as Hp
  end.
  destruct (while_not_done _ _ _ _) as [st|e st|st]; cbn in *;
    try (apply Hp; by repeat split).
  destruct Hp as (Hrng & Hs & Hpa); [by repeat split|].
  unfold paced, close; cbn. rewrite scrolls_app, pauses_app; cbn.
  by rewrite !app_nil_r.
Qed.

Lemma pacing_pauses_range `{!GeneratorLaws} (n : nat) g :
  Forall (fun ms => 1000 <= ms < 2000) (pacing n g).*2.
Proof.
  revert g. induction n as [|n IH]; intros g; [constructor|].
  rewrite pacing_cons, fmap_cons. constructor; [|apply IH].
  unfold draws. destruct (random g) as [u g1].
  pose proof (integers_range 1000 2000 g1 ltac:(lia)) as Hr.
  by destruct (integers 1000 2000 g1) as [ms g2].
Qed.

(** The loop never returns before its body ran: the number of iterations
    only grows, and grows by at least one from a state that is not done. *)
Lemma while_not_done_iterations (fuel : nat) args (browser : nat -> Iteration) st st' :
  while_not_done fuel args browser st = Finished st' ->
  (iterations st <= iterations st')%nat /\
  (done st = false -> (S (iterations st) <= iterations st')%nat).
Proof.
  revert st. induction fuel as [|fuel IH]; intros st; cbn.
  - destruct (done st); [|done]. intros [= ->]. split; [lia|done].
  - destruct (done st); [intros [= ->]; split; [lia|done]|].
    destruct (network_idle (browser (iterations st))) eqn:Hidle.
    + destruct (iteration_next args _ st Hidle) as (st1 & -> & Hn & _).
      intros Hrun. apply IH in Hrun as [Hle _]. lia.
    + by rewrite (iteration_throw args _ st Hidle).
Qed.

(** An exception that leaves the loop is the timeout of the wait for the
    idle network, in the iteration after those completed; the loop has
    not closed the browser. *)
Lemma while_not_done_aborted (fuel : nat) args (browser : nat -> Iteration)
    st (e : exn) st' :
  while_not_done fuel args browser st = Aborted e st' ->
  e = TimeoutError /\
  network_idle (browser (iterations st')) = false /\
  (In Close (log st') -> In Close (log st)).
Proof.
  revert st. induction fuel as [|fuel IH]; intros st; cbn.
  - by destruct (done st).
  - destruct (done st); [done|].
    destruct (network_idle (browser (iterations st))) eqn:Hidle.
    + destruct (iteration_next args _ st Hidle)
        as (st1 & -> & Hn & _ & _ & _ & _ & _ & _ & Hclose).
      intros Hrun. apply IH in Hrun as (-> & Hidle' & Hc). tauto.
    + rewrite (iteration_throw args _ st Hidle). intros [= <- <-]; cbn.
      split_and!; [done..|].
      rewrite in_app_iff; cbn. intuition discriminate.
Qed.

(** Every iteration starts with the wait for the idle network, and the
    log only grows. *)
Lemma iteration_log args env st :
  exists rest,
    log match iteration args env st with Next st' | Throw _ st' => st' end
    = log st ++ Debug "Waiting for page to load"
             :: WaitForLoadState (timeout_seconds args * 1000) :: rest.
Proof.
  destruct (network_idle env) eqn:Hidle.
  - unfold iteration. rewrite Hidle.
    destruct (random (rng st)) as [u g1].
    destruct (integers 1000 2000 g1) as [ms g2]. cbn [log].
    destruct (_ =? 0); eexists; rewrite <- ?app_assoc; cbn; reflexivity.
  - rewrite (iteration_throw args env st Hidle). cbn. by exists [].
Qed.

Lemma while_not_done_log (fuel : nat) args (browser : nat -> Iteration) st :
  exists rest, log (final (while_not_done fuel args browser st)) = log st ++ rest.
Proof.
  revert st. induction fuel as [|fuel IH]; intros st; cbn.
  - destruct (done st); exists []; cbn; by rewrite app_nil_r.
  - destruct (done st); [exists []; cbn; by rewrite app_nil_r|].
    destruct (iteration_log args (browser (iterations st)) st) as [rest Hrest].
    destruct (iteration args (browser (iterations st)) st) as [st'|e st'].
    + destruct (IH st') as [rest' ->]. rewrite Hrest, <- app_assoc. by eexists.
    + cbn. rewrite Hrest. by eexists.
Qed.


Lemma geb_true (a b : Z) : b <= a -> (a >=? b) = true.
Proof. intros. rewrite Z.geb_leb. by apply Z.leb_le. Qed.

Lemma geb_false (a b : Z) : a < b -> (a >=? b) = false.
Proof. intros. rewrite Z.geb_leb. by apply Z.leb_gt. Qed.

(** With no progress and no timeout, from a state below the target the
    loop runs until the patience counter reaches the ceiling. *)
Lemma while_not_done_stalled (fuel : nat) args (browser : nat -> Iteration) st :
  (forall i, network_idle (browser i) = true /\ new_scrapes (browser i) = 0%nat) ->
  done st = false ->
  scrapes st < number_of_images args ->
  (Z.to_nat (Z.max 1 (patience args - patience_counter st)) <= fuel)%nat ->
  exists st',
    while_not_done fuel args browser st = Finished st' /\
    iterations st' =
      (iterations st + Z.to_nat (Z.max 1 (patience args - patience_counter st)))%nat /\
    scrapes st' = scrapes st.
Proof.
  intros Hstalled. revert st.
  induction fuel as [|fuel IH]; intros st Hdone Hbelow Hfuel; [lia|].
  cbn. rewrite Hdone.
  destruct (Hstalled (iterations st)) as [Hidle Hzero].
  destruct (iteration_next args _ st Hidle)
    as (st1 & -> & Hn & Hc & Hpc & Hd & _).
  rewrite Hzero in Hc, Hpc. rewrite bool_decide_eq_true_2 in Hpc by done.
  cbn in Hc. rewrite Z.add_0_r in Hc.
  rewrite Hc, Hpc in Hd.
  rewrite (geb_false (scrapes st)) in Hd by lia. cbn in Hd.
  destruct (Z_lt_le_dec (patience_counter st + 1) (patience args)) as [Hlt|Hge].
  - assert (done st1 = false) as Hd1
        by (rewrite Hd; apply geb_false; lia).
    destruct (IH st1) as (st' & Hrun & Hiter & Hsame); [done|lia|lia|].
    exists st'. split_and!; [done|lia|congruence].
  - assert (done st1 = true) as Hd1
        by (rewrite Hd; apply geb_true; lia).
    exists st1. split_and!; [|lia|done].
    destruct fuel; cbn; by rewrite Hd1.
Qed.

(** When the target is already met, the first iteration still runs and
    is the last. *)
Lemma while_not_done_target_met (fuel : nat) args (browser : nat -> Iteration) st :
  done st = false ->
  network_idle (browser (iterations st)) = true ->
  number_of_images args <= scrapes st ->
  exists st',
    while_not_done (S fuel) args browser st = Finished st' /\
    iterations st' = S (iterations st) /\
    scrapes st' = scrapes st + Z.of_nat (new_scrapes (browser (iterations st))) /\
    scrolls (log st') = scrolls (log st) ++ [fst (fst (draws (rng st)))] /\
    pauses (log st') = pauses (log st) ++ [snd (fst (draws (rng st)))].
Proof.
  intros Hdone Hidle Hmet. cbn. rewrite Hdone.
  destruct (iteration_next args _ st Hidle)
    as (st1 & -> & Hn & Hc & _ & Hd & _ & Hs & Hp & _).
  rewrite geb_true in Hd by lia. cbn in Hd.
  exists st1. split_and!; try done.
  destruct fuel; cbn; by rewrite Hd.
Qed.


End LoopClaims.

Section LoopTheorems.
Context `{Generator}.

Implicit Types (args : Args) (session : Session).

(** The state the loop of [main] starts from. *)
Lemma main_unfold (fuel : nat) args session :
  main fuel args session =
    match
      while_not_done fuel args (browser session)
        {| done := false;
           patience_counter := 0;
           rng := default_rng (seed args);
           scrapes := Z.of_nat (scraped_on_load session);
           iterations := 0;
           log := [] |}
    with
    | Finished st => Finished (close st)
    | r => r
    end.
Proof. reflexivity. Qed.

(** C4, as amended.  When no iteration admits an image and no wait times
    out, the loop performs exactly N iterations for a patience ceiling
    N >= 1, whatever the target, as long as the target is above the number
    of images already admitted; when the target is already met, or N < 1,
    it performs exactly one iteration.  Then the run is done. *)
Theorem patience_termination args session (fuel : nat) :
  (forall i, network_idle (browser session i) = true /\
             new_scrapes (browser session i) = 0%nat) ->
  let n := if number_of_images args <=? Z.of_nat (scraped_on_load session)
           then 1%nat
           else Z.to_nat (Z.max 1 (patience args)) in
  (n <= fuel)%nat ->
  exists st,
    main fuel args session = Finished st /\
    iterations st = n /\
    scrapes st = Z.of_nat (scraped_on_load session) /\
    (1 <= patience args ->
     Z.of_nat (scraped_on_load session) < number_of_images args ->
     Z.of_nat (iterations st) = patience args).
Proof.
  intros Hstalled n Hfuel. rewrite main_unfold.
  subst n. destruct (Z.leb_spec (number_of_images args)
                       (Z.of_nat (scraped_on_load session))) as [Hmet|Hbelow].
  - destruct fuel as [|fuel]; [lia|].
    edestruct (while_not_done_target_met fuel args (browser session))
      as (st & -> & Hn & Hc & _); [| |exact Hmet|]; [done|apply Hstalled|].
    cbn in Hc. destruct (Hstalled 0%nat) as [_ Hzero]. rewrite Hzero in Hc.
    exists (close st). split_and!; [done|done|cbn; lia|cbn; lia].
  - edestruct (while_not_done_stalled fuel args (browser session))
      as (st & -> & Hn & Hc); [exact Hstalled|done|exact Hbelow|cbn; lia|].
    cbn in Hn, Hc. rewrite Z.sub_0_r in Hn.
    exists (close st). split_and!; [done|done|done|cbn; lia].
Qed.

(** C7, as amended.  A timeout of the wait for the idle network is fatal:
    [TimeoutError] leaves the loop in the iteration where it happens, with
    no scroll, click or pause of that iteration and without
    [browser.close()]; it is the only exception that ends a run of the
    loop. *)
Theorem idle_timeout_ends_the_run args session (fuel : nat) :
  (forall (page : nat -> Iteration) (st : Loop),
     done st = false ->
     network_idle (page (iterations st)) = false ->
     while_not_done (S fuel) args page st =
       Aborted TimeoutError
         {| done := done st;
            patience_counter := patience_counter st;
            rng := rng st;
            scrapes := scrapes st;
            iterations := iterations st;
            log := log st ++ [Debug "Waiting for page to load";
                              WaitForLoadState (timeout_seconds args * 1000)] |}) /\
  (forall (e : exn) (st : Loop),
     main fuel args session = Aborted e st ->
     e = TimeoutError /\
     network_idle (browser session (iterations st)) = false /\
     ~ In Close (log st)).
Proof.
  split.
  - intros page st Hdone Hidle. cbn.
    rewrite (iteration_throw args _ st Hidle). by rewrite Hdone.
  - intros e st. rewrite main_unfold.
    destruct (while_not_done _ _ _ _) as [st'|e' st'|st'] eqn:Hrun; try done.
    intros [= -> ->].
    apply while_not_done_aborted in Hrun as (-> & Hidle & Hclose).
    split_and!; [done|done|]. intros Hin. by apply Hclose in Hin.
Qed.

(** C8.  The scroll directions and the pauses of a run are those the
    generator gives from the seed, two draws per iteration, whatever the
    browser does and whatever the other arguments are: two runs with the
    same seed agree on the directions and pauses of their first N
    iterations.  A direction is forward exactly when the draw is below
    0.75, and every pause is in [1000, 2000). *)
Theorem pacing_is_a_function_of_the_seed `{!GeneratorLaws}
    args1 args2 session1 session2 (fuel1 fuel2 : nat) :
  seed args1 = seed args2 ->
  let run1 := final (main fuel1 args1 session1) in
  let run2 := final (main fuel2 args2 session2) in
  (scrolls (log run1) = (pacing (iterations run1) (default_rng (seed args1))).*1 /\
   pauses (log run1) = (pacing (iterations run1) (default_rng (seed args1))).*2) /\
  (forall N : nat, (N <= iterations run1)%nat -> (N <= iterations run2)%nat ->
     take N (scrolls (log run1)) = take N (scrolls (log run2)) /\
     take N (pauses (log run1)) = take N (pauses (log run2))) /\
  Forall (fun ms => 1000 <= ms < 2000) (pauses (log run1)) /\
  (forall u, scroll_choice u = Down <-> 4 * u < 3 * 2 ^ 53).
Proof.
  intros Hseed run1 run2.
  destruct (main_paced fuel1 args1 session1) as (_ & Hs1 & Hp1).
  destruct (main_paced fuel2 args2 session2) as (_ & Hs2 & Hp2).
  fold run1 in Hs1, Hp1. fold run2 in Hs2, Hp2. rewrite <- Hseed in Hs2, Hp2.
  split_and!; [done|done| | |].
  - intros N H1 H2. rewrite Hs1, Hs2, Hp1, Hp2.
    rewrite <- !fmap_take, !pacing_take by done. done.
  - rewrite Hp1. apply pacing_pauses_range.
  - intros u. unfold scroll_choice.
    destruct (Z.ltb_spec (4 * u) (3 * 2 ^ 53)); split; (done || lia).
Qed.

(** C9.  The loop tests [done] only after an iteration: the body is
    entered before any test (every run starts with the wait of the first
    iteration), a run that leaves the loop through [done] has completed at
    least one iteration, and when the target is already met at loop entry
    (a target of zero, say) the first iteration, with its scroll and its
    pause, still runs and is the only one. *)
Theorem loop_body_runs_before_the_first_test args session (fuel : nat) :
  ((1 <= fuel)%nat ->
   exists rest,
     log (final (main fuel args session))
     = Debug "Waiting for page to load"
         :: WaitForLoadState (timeout_seconds args * 1000) :: rest) /\
  (forall st, main fuel args session = Finished st -> (1 <= iterations st)%nat) /\
  (number_of_images args <= Z.of_nat (scraped_on_load session) ->
   network_idle (browser session 0%nat) = true ->
   (1 <= fuel)%nat ->
   exists st,
     main fuel args session = Finished st /\
     iterations st = 1%nat /\
     length (scrolls (log st)) = 1%nat /\
     length (pauses (log st)) = 1%nat).
Proof.
  split_and!.
  - intros Hfuel. destruct fuel as [|fuel]; [lia|].
    rewrite main_unfold. cbn [while_not_done done].
    match goal with |- context [iteration ?a ?e ?st0] =>
      destruct (iteration_log a e st0) as [rest Hrest];
      destruct (iteration a e st0) as [st1|e1 st1]
    end; cbn in Hrest.
    + destruct (while_not_done_log fuel args (browser session) st1) as [rest' Hlog].
      rewrite Hrest in Hlog.
      destruct (while_not_done _ _ _ st1) as [st2|e2 st2|st2]; cbn in *;
        rewrite Hlog; rewrite <- ?app_assoc; cbn; by eexists.
    + cbn. rewrite Hrest. by eexists.
  - intros st. rewrite main_unfold.
    destruct (while_not_done _ _ _ _) as [st'|e' st'|st'] eqn:Hrun; try done.
    intros [= <-]. apply while_not_done_iterations in Hrun as [_ Hlt].
    cbn in *. by apply Hlt.
  - intros Hmet Hidle Hfuel. destruct fuel as [|fuel]; [lia|].
    rewrite main_unfold.
    edestruct (while_not_done_target_met fuel args (browser session))
      as (st & -> & Hn & _ & Hs & Hp); [| |exact Hmet|]; [done|exact Hidle|].
    exists (close st). cbn in *.
    rewrite scrolls_app, pauses_app, Hs, Hp. done.
Qed.


End LoopTheorems.

(** * The test doubles obey the laws *)

Lemma lcg_random_range (g : Z) : 0 <= fst (Stub.lcg_random g) < 2 ^ 53.
Proof.
  unfold Stub.lcg_random; cbn [fst].
  assert (0 <= g mod 2 ^ 64 < 2 ^ 64) by (apply Z.mod_pos_bound; lia).
  split.
  - apply Z.div_pos; lia.
  - apply Z.div_lt_upper_bound; [lia|].
    change (2 ^ 11 * 2 ^ 53) with (2 ^ 64). lia.
Qed.

Lemma lcg_integers_range (lo hi g : Z) :
  lo < hi -> lo <= fst (Stub.lcg_integers lo hi g) < hi.
Proof.
  intros Hlt. unfold Stub.lcg_integers; cbn [fst].
  assert (0 <= g mod (hi - lo) < hi - lo) by (apply Z.mod_pos_bound; lia).
  lia.
Qed.

#[global] Instance stub_generator_laws : @GeneratorLaws Stub.generator.
Proof. split; [apply lcg_random_range|apply lcg_integers_range]. Qed.

(** * Concrete runs *)

(** C1: a body that is no image.  [Image.open] raises and the exception
    leaves the handler; nothing is logged. *)
Lemma undecodable_body_escapes :
  __call__ Stub.handler (Stub.get Stub.photo_url Stub.jpeg_headers (Ok Stub.garbage))
  = raises UnidentifiedImageError Stub.handler [EvBody].
Proof. reflexivity. Qed.

Lemma call_raises_witness :
  __call__ Stub.handler (Stub.get Stub.photo_url Stub.jpeg_headers (Ok Stub.garbage))
  = raises UnidentifiedImageError Stub.handler [EvBody].
Proof.
  apply (proj1 (proj2 (call_raises_exactly_when_a_library_call_raises
    Stub.handler (Stub.get Stub.photo_url Stub.jpeg_headers (Ok Stub.garbage))
    UnidentifiedImageError))).
  reflexivity.
Defined.

(** C2: a greymap served as [image/jpeg].  PIL decodes it, and the file
    holds what [image.save] wrote for the decoded image, a stream that
    starts with the JPEG marker FF D8, not the body, which starts with
    [P5]. *)
Lemma saved_bytes_are_not_the_body :
  body (Stub.get Stub.photo_url Stub.jpeg_headers (Ok Pgm.photo)) = Ok Pgm.photo /\
  files_written
    (events (@__call__ Stub.hashing Pgm.imaging Stub.handler
               (Stub.get Stub.photo_url Stub.jpeg_headers (Ok Pgm.photo))))
    = [(["flickr_images"; "cats"; "50350a3220320a3235350a0a0b0c0d.jpg"]%string,
        [xff; xd8; x0a; x0b; x0c; x0d; xff; xd9])] /\
  [xff; xd8; x0a; x0b; x0c; x0d; xff; xd9] <> Pgm.photo.
Proof. split_and!; [reflexivity|reflexivity|discriminate]. Qed.

Lemma photo_is_admitted :
  admits (__call__ Stub.handler
            (Stub.get Stub.photo_url Stub.jpeg_headers (Ok Stub.photo))).
Proof.
  exists ["flickr_images"; "cats"; "02020a0b0c0dff.jpg"]%string,
         [x02; x02; x0a; x0b; x0c; x0d].
  right; left; reflexivity.
Defined.

Lemma saved_file_witness :
  (files_written
     (events (@__call__ Stub.hashing Pgm.imaging Stub.handler
                (Stub.get Stub.photo_url Stub.jpeg_headers (Ok Pgm.photo))))
   = [(["flickr_images"; "cats"; "50350a3220320a3235350a0a0b0c0d.jpg"]%string,
       [xff; xd8; x0a; x0b; x0c; x0d; xff; xd9])]) /\
  (raised (@__call__ Stub.hashing Pgm.imaging Stub.handler
             (Stub.get Stub.photo_url Stub.jpeg_headers (Ok Pgm.truncated)))
   = Some OSError /\
   files_written
     (events (@__call__ Stub.hashing Pgm.imaging Stub.handler
                (Stub.get Stub.photo_url Stub.jpeg_headers (Ok Pgm.truncated))))
   = []).
Proof.
  split.
  - pose proof (@saved_file_is_the_decoded_image_saved Stub.hashing Pgm.imaging
      Stub.handler (Stub.get Stub.photo_url Stub.jpeg_headers (Ok Pgm.photo))
      Pgm.photo
      {| Pgm.width := 2; Pgm.height := 2; Pgm.samples := [x0a; x0b; x0c; x0d] |}
      eq_refl eq_refl eq_refl ltac:(vm_compute; set_solver) eq_refl eq_refl)
      as (_ & Hsave & _).
    exact (proj1 (proj2 Hsave)).
  - pose proof (@saved_file_is_the_decoded_image_saved Stub.hashing Pgm.imaging
      Stub.handler (Stub.get Stub.photo_url Stub.jpeg_headers (Ok Pgm.truncated))
      Pgm.truncated
      {| Pgm.width := 2; Pgm.height := 2; Pgm.samples := [x0a; x0b] |}
      eq_refl eq_refl eq_refl ltac:(vm_compute; set_solver) eq_refl eq_refl)
      as (_ & Hsave & _).
    exact (conj (proj1 Hsave) (proj1 (proj2 Hsave))).
Defined.

(** C3: the photo, then garbage and a png, then the photo again. *)
Lemma idempotent_witness :
  scrape_counter
    (after (__call__
       (after (__call__ Stub.handler
                 (Stub.get Stub.photo_url Stub.jpeg_headers (Ok Stub.photo))))
       (Stub.get Stub.photo_url Stub.jpeg_headers (Ok Stub.photo))))
  = 1%nat.
Proof.
  apply (admission_is_idempotent Stub.handler
           (Stub.get Stub.photo_url Stub.jpeg_headers (Ok Stub.photo))
           [Stub.get Stub.photo_url Stub.jpeg_headers (Ok Stub.garbage)]
           (Stub.get Stub.photo_url Stub.jpeg_headers (Ok Stub.photo))).
  - exact photo_is_admitted.
  - reflexivity.
Defined.

(** C5: the range of the stub handler is 2 to 3. *)
Lemma dimension_gate_witness :
  2 <= 3 /\
  size_in_range Stub.handler (2, 2) = true /\
  size_in_range Stub.handler (3, 3) = true /\
  size_in_range Stub.handler (2 - 1, 2) = false /\
  size_in_range Stub.handler (3 + 1, 3) = false.
Proof.
  pose proof (dimension_gate Stub.handler
    (Stub.get Stub.photo_url Stub.jpeg_headers (Ok Stub.photo))
    Stub.photo
    {| Stub.width := x02; Stub.height := x02; Stub.pixels := [x0a; x0b; x0c; x0d] |}
    2 2 eq_refl eq_refl eq_refl ltac:(vm_compute; set_solver) eq_refl eq_refl)
    as (_ & _ & _ & Hin & Hlow & Hhigh).
  split; [lia|]. destruct Hin as [Hmin Hmax]; [cbn; lia|].
  split_and!; [exact Hmin|exact Hmax|exact Hlow|exact Hhigh].
Defined.

(** C6: a POST to a matching url. *)
Lemma gates_witness :
  __call__ Stub.handler
    {| request := {| method := "POST"; url := Stub.photo_url |};
       headers := Stub.jpeg_headers;
       body := Ok Stub.photo |}
  = returns Stub.handler [].
Proof.
  apply (proj1 (proj2 (proj2 (gates_guard_body_and_admission Stub.handler
    {| request := {| method := "POST"; url := Stub.photo_url |};
       headers := Stub.jpeg_headers;
       body := Ok Stub.photo |})))).
  cbn. discriminate.
Defined.

(** C10: a response without a content-type header. *)
Lemma content_type_witness :
  __call__ Stub.handler (Stub.get Stub.photo_url ∅ (Ok Stub.photo))
    = returns Stub.handler [] /\
  raised (__call__ Stub.handler (Stub.get Stub.photo_url ∅ (Ok Stub.photo))) = None.
Proof.
  apply (proj2 (proj2 (proj2 (proj2 (content_type_must_be_exact Stub.handler
           (Stub.get Stub.photo_url ∅ (Ok Stub.photo))))))).
  reflexivity.
Defined.

(** C4: no progress, a patience ceiling of 3 and a target of 0: the loop
    performs one iteration, not three. *)
Lemma target_zero_stops_after_one_iteration :
  patience (Stub.args 0 3) = 3 /\
  exists st,
    main 10 (Stub.args 0 3) Stub.stalled = Finished st /\
    iterations st = 1%nat.
Proof. split; [reflexivity|]. eexists. split; reflexivity. Qed.

Lemma patience_witness :
  exists st,
    main 3 (Stub.args 5 3) Stub.stalled = Finished st /\
    iterations st = 3%nat.
Proof.
  destruct (patience_termination (Stub.args 5 3) Stub.stalled 3)
    as (st & Hrun & Hn & _).
  - intros i. split; reflexivity.
  - vm_compute. lia.
  - exists st. split; [exact Hrun|exact Hn].
Defined.

(** C7: the first wait times out: the run is over, with no scroll and no
    pause. *)
Lemma first_timeout_ends_the_run :
  exists st,
    main 10 (Stub.args 5 3) Stub.never_idle = Aborted TimeoutError st /\
    iterations st = 0%nat /\
    scrolls (log st) = [] /\
    pauses (log st) = [].
Proof. eexists. split_and!; reflexivity. Qed.

Lemma timeout_witness :
  network_idle (browser Stub.never_idle 0%nat) = false /\
  ~ In Close (log (final (main 10 (Stub.args 5 3) Stub.never_idle))).
Proof.
  destruct (proj2 (idle_timeout_ends_the_run (Stub.args 5 3) Stub.never_idle 10)
              TimeoutError (final (main 10 (Stub.args 5 3) Stub.never_idle)) eq_refl)
    as (_ & Hidle & Hclose).
  split; [exact Hidle|exact Hclose].
Defined.

(** C8: a stalled and a productive browser, with different targets and
    patience, and the same seed. *)
Lemma pacing_witness :
  take 3 (pauses (log (final (main 10 (Stub.args 5 3) Stub.stalled))))
  = take 3 (pauses (log (final (main 10 (Stub.args 9 7) Stub.productive)))).
Proof.
  destruct (pacing_is_a_function_of_the_seed
              (Stub.args 5 3) (Stub.args 9 7) Stub.stalled Stub.productive 10 10
              eq_refl) as (_ & Hsame & _).
  apply (Hsame 3%nat); vm_compute; lia.
Defined.

(** C9: a target of zero. *)
Lemma first_iteration_witness :
  exists st,
    main 1 (Stub.args 0 3) Stub.stalled = Finished st /\
    iterations st = 1%nat /\
    length (scrolls (log st)) = 1%nat /\
    length (pauses (log st)) = 1%nat.
Proof.
  apply (proj2 (proj2
    (loop_body_runs_before_the_first_test (Stub.args 0 3) Stub.stalled 1))).
  - cbn. lia.
  - reflexivity.
  - lia.
Defined.

(** * A session of the handler *)

Lemma append_nil (t : string) : "" +:+ t = t.
Proof. reflexivity. Qed.

Lemma append_cons (c : ascii) (s t : string) : String c s +:+ t = String c (s +:+ t).
Proof. reflexivity. Qed.

Lemma append_assoc (s t u : string) : (s +:+ t) +:+ u = s +:+ (t +:+ u).
Proof. induction s as [|c s IH]; [done|]. by rewrite !append_cons, IH. Qed.

Lemma append_length (s t : string) :
  String.length (s +:+ t) = (String.length s + String.length t)%nat.
Proof.
  induction s as [|c s IH]; [done|]. rewrite append_cons. cbn. by rewrite IH.
Qed.

Lemma append_inj_l (s1 s2 t : string) : s1 +:+ t = s2 +:+ t -> s1 = s2.
Proof.
  revert s2. induction s1 as [|c s1 IH]; intros [|c2 s2] Heq;
    rewrite ?append_nil, ?append_cons in Heq.
  - done.
  - apply (f_equal String.length) in Heq. cbn in Heq.
    rewrite append_length in Heq. lia.
  - apply (f_equal String.length) in Heq. cbn in Heq.
    rewrite append_length in Heq. lia.
  - injection Heq as -> Heq. f_equal. by apply IH.
Qed.

Section Sessions.
Context `{Hashing} `{Imaging}.

Implicit Types (self : ResponseHandler) (response : Response).

Lemma path_of_inj self (data1 data2 : bytes) :
  path_of self data1 = path_of self data2 ->
  sha256_hexdigest data1 = sha256_hexdigest data2.
Proof.
  unfold path_of, joinpath, file_name_of. intros Heq.
  apply app_inj_tail in Heq as [_ Heq]. by apply append_inj_l in Heq.
Qed.

Lemma handle_all_cons self response (responses : list Response) :
  handle_all self (response :: responses)
  = handle_all (after (__call__ self response)) responses.
Proof. reflexivity. Qed.

Lemma call_keeps_configuration self response :
  save_directory (after (__call__ self response)) = save_directory self /\
  min_image_size (after (__call__ self response)) = min_image_size self /\
  max_image_size (after (__call__ self response)) = max_image_size self.
Proof. by destruct (call_taken self response). Qed.

(** X2.  No sequence of responses changes the directory or the size range
    of the handler, and none takes a hash out of the set. *)
Theorem session_keeps_configuration self (responses : list Response) :
  save_directory (handle_all self responses) = save_directory self /\
  min_image_size (handle_all self responses) = min_image_size self /\
  max_image_size (handle_all self responses) = max_image_size self /\
  scraped_image_hashes self ⊆ scraped_image_hashes (handle_all self responses).
Proof.
  assert (save_directory (handle_all self responses) = save_directory self /\
          min_image_size (handle_all self responses) = min_image_size self /\
          max_image_size (handle_all self responses) = max_image_size self)
    as (Hd & Hmin & Hmax).
  { revert self. induction responses as [|r rs IH]; intros self; [done|].
    rewrite handle_all_cons.
    destruct (IH (after (__call__ self r))) as (-> & -> & ->).
    apply call_keeps_configuration. }
  split_and!; [done..|apply handle_all_hashes_grow].
Qed.

(** X3.  The scrape counter counts the files: over any sequence of
    responses it grows by the number of files written, which is at most the
    number of responses. *)
Theorem counter_counts_the_files self (responses : list Response) :
  scrape_counter (handle_all self responses)
    = (scrape_counter self
       + length (files_written (session_events self responses)))%nat /\
  (length (files_written (session_events self responses)) <= length responses)%nat.
Proof.
  revert self. induction responses as [|r rs IH]; intros self.
  - cbn. split; lia.
  - rewrite handle_all_cons. cbn [session_events length].
    destruct (IH (after (__call__ self r))) as [-> Hle].
    unfold files_written in *. rewrite flat_map_app, length_app.
    assert (scrape_counter (after (__call__ self r))
            = (scrape_counter self
               + length (flat_map (fun ev => match ev with
                                             | EvSave p w => [(p, w)]
                                             | _ => []
                                             end) (events (__call__ self r))))%nat
            /\ (length (flat_map (fun ev => match ev with
                                            | EvSave p w => [(p, w)]
                                            | _ => []
                                            end) (events (__call__ self r))) <= 1)%nat)
      as [-> Hone].
    { destruct (call_taken self r); cbn; split; try lia.
      unfold scrape_counter; cbn.
      rewrite size_union by set_solver. rewrite size_singleton. lia. }
    split; lia.
Qed.

(** Every file of a session lies in the directory of the handler, under
    the name of a hash that was not in the set when the session began. *)
Lemma session_files_are_new self (responses : list Response) (p : Path) (w : bytes) :
  In (p, w) (files_written (session_events self responses)) ->
  exists data,
    p = path_of self data /\
    sha256_hexdigest data ∉ scraped_image_hashes self.
Proof.
  revert self. induction responses as [|r rs IH]; intros self; cbn; [done|].
  unfold files_written. rewrite flat_map_app, in_app_iff.
  fold (files_written (events (__call__ self r))).
  fold (files_written (session_events (after (__call__ self r)) rs)).
  intros [Hnow|Hlater].
  - destruct (call_taken self r); cbn in Hnow; try done.
    destruct Hnow as [[= <- <-]|[]]. by eexists.
  - apply IH in Hlater as (data & -> & Hnew). exists data. split.
    + unfold path_of. by destruct (call_keeps_configuration self r) as (-> & _).
    + intros Hin. apply Hnew. by apply call_hashes_grow.
Qed.

(** X4.  No file is written twice: the files of a session have pairwise
    different paths, each the directory of the handler extended by the
    name of a hash the handler had not seen when the session began. *)
Theorem session_never_overwrites self (responses : list Response) :
  NoDup (files_written (session_events self responses)).*1 /\
  (forall p w, In (p, w) (files_written (session_events self responses)) ->
     exists data,
       p = joinpath (save_directory self) (sha256_hexdigest data +:+ ".jpg") /\
       sha256_hexdigest data ∉ scraped_image_hashes self).
Proof.
  split; [|apply session_files_are_new].
  revert self. induction responses as [|r rs IH]; intros self; cbn; [constructor|].
  unfold files_written. rewrite flat_map_app, fmap_app.
  fold (files_written (events (__call__ self r))).
  fold (files_written (session_events (after (__call__ self r)) rs)).
  pose proof (IH (after (__call__ self r))) as Hrest.
  pose proof (session_files_are_new (after (__call__ self r)) rs) as Hnew.
  destruct (call_taken self r) as [| | | | | | |data image written]; cbn in *;
    try done.
  constructor; [|done].
  intros Hin. apply list_elem_of_fmap in Hin as ([p w] & Hp & Hin). cbn in Hp.
  apply list_elem_of_In, Hnew in Hin as (data' & -> & Hfresh).
  unfold path_of in Hp; cbn in Hp. fold (path_of self data') in Hp.
  apply path_of_inj in Hp. apply Hfresh. rewrite <- Hp. set_solver.
Qed.

Lemma accepted_hash_configuration self1 self2 response :
  save_directory self1 = save_directory self2 ->
  min_image_size self1 = min_image_size self2 ->
  max_image_size self1 = max_image_size self2 ->
  accepted_hash self1 response = accepted_hash self2 response.
Proof.
  intros Hd Hmin Hmax.
  unfold accepted_hash, size_in_range, path_of. by rewrite Hd, Hmin, Hmax.
Qed.

Lemma call_adds_accepted_hash self response :
  scraped_image_hashes (after (__call__ self response))
  = scraped_image_hashes self
    ∪ match accepted_hash self response with Some h => {[h]} | None => ∅ end.
Proof.
  unfold accepted_hash.
  destruct (call_taken self response) as
    [Hreq|Hreq Hct|e Hreq Hct Hb|data Hreq Hct Hb Hin|data e Hreq Hct Hb Hnew Ho
    |data image Hreq Hct Hb Hnew Ho Hs|data image e Hreq Hct Hb Hnew Ho Hs Hsv
    |data image written Hreq Hct Hb Hnew Ho Hs Hsv];
    cbn; rewrite ?Hreq, ?Hct; cbn; rewrite ?Hb, ?Ho, ?Hs, ?Hsv;
    try set_solver.
  destruct (Image_open data) as [image|]; [|set_solver].
  destruct (size_in_range self (image_size image)); [|set_solver].
  destruct (Image_save image (path_of self data)); set_solver.
Qed.

Lemma handle_all_hashes self (responses : list Response) :
  scraped_image_hashes (handle_all self responses)
  = scraped_image_hashes self ∪ list_to_set (omap (accepted_hash self) responses).
Proof.
  revert self. induction responses as [|r rs IH]; intros self.
  - cbn. set_solver.
  - rewrite handle_all_cons. cbn [omap list_omap].
    rewrite IH, call_adds_accepted_hash.
    destruct (call_keeps_configuration self r) as (Hd & Hmin & Hmax).
    assert (omap (accepted_hash (after (__call__ self r))) rs
            = omap (accepted_hash self) rs) as ->.
    { clear IH. induction rs as [|r' rs IH']; [done|]. cbn.
      by rewrite IH', (accepted_hash_configuration _ self r'). }
    destruct (accepted_hash self r); cbn; set_solver.
Qed.

(** X5.  The hashes a handler ends with do not depend on the order in
    which the responses arrive, and neither does its counter. *)
Theorem session_order_is_irrelevant self (responses1 responses2 : list Response) :
  responses1 ≡ₚ responses2 ->
  scraped_image_hashes (handle_all self responses1)
    = scraped_image_hashes (handle_all self responses2) /\
  scrape_counter (handle_all self responses1)
    = scrape_counter (handle_all self responses2).
Proof.
  intros Hperm.
  assert (scraped_image_hashes (handle_all self responses1)
          = scraped_image_hashes (handle_all self responses2)) as Heq.
  { rewrite !handle_all_hashes. apply set_eq. intros h.
    rewrite !elem_of_union, !elem_of_list_to_set. by rewrite Hperm. }
  split; [done|]. unfold scrape_counter. by rewrite Heq.
Qed.

End Sessions.

Lemma session_order_witness :
  scraped_image_hashes
    (handle_all Stub.handler
       [Stub.get Stub.photo_url Stub.jpeg_headers (Ok Stub.photo);
        Stub.get Stub.photo_url Stub.jpeg_headers (Ok Stub.garbage)])
  = scraped_image_hashes
      (handle_all Stub.handler
         [Stub.get Stub.photo_url Stub.jpeg_headers (Ok Stub.garbage);
          Stub.get Stub.photo_url Stub.jpeg_headers (Ok Stub.photo)]).
Proof.
  apply (session_order_is_irrelevant Stub.handler
           [Stub.get Stub.photo_url Stub.jpeg_headers (Ok Stub.photo);
            Stub.get Stub.photo_url Stub.jpeg_headers (Ok Stub.garbage)]
           [Stub.get Stub.photo_url Stub.jpeg_headers (Ok Stub.garbage);
            Stub.get Stub.photo_url Stub.jpeg_headers (Ok Stub.photo)]).
  apply perm_swap.
Defined.

(** * The url test and the name in the log *)

Lemma re_match_lit (c : ascii) (p : list re_item) (s : string) :
  re_match (Lit c :: p) s = true <->
  exists s', s = String c s' /\ re_match p s' = true.
Proof.
  destruct s as [|a s]; cbn.
  - split; [done|]. by intros (s' & ? & _).
  - rewrite andb_true_iff, bool_decide_eq_true. split.
    + intros [-> Hm]. by exists s.
    + intros (s' & [= -> ->] & Hm). done.
Qed.

Lemma re_match_dot (p : list re_item) (s : string) :
  re_match (Dot :: p) s = true <->
  exists a s', s = String a s' /\ a <> newline /\ re_match p s' = true.
Proof.
  destruct s as [|a s]; cbn.
  - split; [done|]. by intros (a & s' & ? & _).
  - rewrite andb_true_iff, negb_true_iff, bool_decide_eq_false. split.
    + intros [Hne Hm]. by exists a, s.
    + intros (a' & s' & [= -> ->] & Hne & Hm). done.
Qed.

Lemma re_match_dotstar_end (s : string) : re_match [DotStar] s = true.
Proof. by destruct s. Qed.

Ltac re_step H :=
  first
    [ let s := fresh "s" in
      let H' := fresh "Hm" in
      apply re_match_lit in H as (s & -> & H'); clear H; rename H' into H
    | let a := fresh "a" in
      let s := fresh "s" in
      let Ha := fresh "Ha" in
      let H' := fresh "Hm" in
      apply re_match_dot in H as (a & s & -> & Ha & H'); clear H; rename H' into H ].

(** X6.  The url test of line 37 accepts exactly the urls that start with
    [https://live], any character but a newline, [staticflickr], any
    character but a newline, and [com/]: the two dots of the pattern are
    not escaped, so they stand for any character, and nothing is asked of
    what follows the last slash. *)
Theorem url_gate_accepts (u : string) :
  re_match (re_compile pattern) u = true <->
  exists (a b : ascii) (rest : string),
    u = "https://live" +:+ String a ("staticflickr" +:+ String b ("com/" +:+ rest)) /\
    a <> newline /\ b <> newline.
Proof.
  let p := eval vm_compute in (re_compile pattern) in
  change (re_compile pattern) with p.
  split.
  - intros Hm. repeat re_step Hm. by eexists _, _, _.
  - intros (a & b & rest & -> & Ha & Hb).
    repeat first
      [ apply re_match_dotstar_end
      | apply re_match_lit; eexists; split; [reflexivity|]
      | apply re_match_dot; eexists _, _; split_and!; [reflexivity|done|] ].
Qed.

(** [str.split] and [str.join]. *)
Lemma str_split_not_empty (sep : ascii) (s : string) : str_split sep s <> [].
Proof.
  induction s as [|c s IH]; cbn; [done|].
  case_bool_decide; [done|]. by destruct (str_split sep s).
Qed.

(** Joining the pieces of [str_split] with the separator gives the string
    back, and no piece holds the separator. *)
Lemma str_split_join (sep : ascii) (s : string) :
  String.concat (String sep EmptyString) (str_split sep s) = s /\
  Forall (fun piece => ~ has_char sep piece) (str_split sep s).
Proof.
  induction s as [|c s [IHjoin IHfree]]; cbn.
  - split; [done|]. constructor; [|constructor]. by intros [].
  - pose proof (str_split_not_empty sep s) as Hne.
    case_bool_decide as Hc.
    + subst c. split.
      * destruct (str_split sep s) as [|w ws] eqn:Hs; [done|].
        cbn [String.concat]. rewrite append_nil. cbn in *. by rewrite IHjoin.
      * constructor; [by intros []|done].
    + destruct (str_split sep s) as [|w ws] eqn:Hs; [done|]. split.
      * cbn [String.concat] in *. destruct ws as [|w' ws].
        -- by rewrite IHjoin.
        -- rewrite append_cons. by rewrite IHjoin.
      * inversion IHfree as [|? ? Hw Hws]; subst. constructor; [|done].
        intros [Heq|Hin]; [by subst|]. by apply Hw.
Qed.

Lemma concat_last (sep : string) (pieces : list string) :
  pieces <> [] ->
  String.concat sep pieces = last_item pieces \/
  exists before, String.concat sep pieces = before +:+ sep +:+ last_item pieces.
Proof.
  induction pieces as [|w [|w' ws] IH]; intros Hne; [done|by left|].
  right. destruct IH as [IH|[before IH]]; [done| |].
  - exists w. cbn [String.concat] in *. unfold last_item in *.
    cbn [List.last] in *. by rewrite IH.
  - exists (w +:+ sep +:+ before). cbn [String.concat] in *.
    unfold last_item in *. cbn [List.last] in *.
    by rewrite IH, !append_assoc.
Qed.

(** X7.  The name the handler logs for a saved image is the part of the
    url after its last slash: it holds no slash, and the url is that name,
    or something, a slash and that name. *)
Theorem logged_name_is_the_last_segment (request : Request) (file_name : string) :
  let name := last_item (str_split "/" (url request)) in
  saved_message request file_name = "Saved " +:+ name +:+ " as " +:+ file_name /\
  ~ has_char "/" name /\
  (url request = name \/ exists before, url request = before +:+ "/" +:+ name).
Proof.
  intros name. split; [done|].
  destruct (str_split_join "/" (url request)) as [Hjoin Hfree].
  pose proof (str_split_not_empty "/" (url request)) as Hne.
  split.
  - subst name. unfold last_item.
    destruct (exists_last Hne) as (front & piece & Hsplit).
    rewrite Hsplit, last_last. rewrite Hsplit in Hfree.
    apply Forall_app in Hfree as [_ Hfree]. by inversion Hfree.
  - destruct (concat_last "/" _ Hne) as [Hc|[before Hc]]; rewrite Hjoin in Hc.
    + by left.
    + right. by exists before.
Qed.

(** * What a run of the loop adds up to *)

Section Accounts.
Context `{Generator}.

Implicit Types (st : Loop) (args : Args) (env : Iteration) (session : Session).

Lemma clicks_app (l1 l2 : list action) : clicks (l1 ++ l2) = (clicks l1 + clicks l2)%nat.
Proof. unfold clicks. by rewrite flat_map_app, length_app. Qed.

Lemma queries_app (l1 l2 : list action) :
  queries (l1 ++ l2) = (queries l1 + queries l2)%nat.
Proof. unfold queries. by rewrite flat_map_app, length_app. Qed.

Lemma iteration_next_actions args env st :
  network_idle env = true ->
  exists st',
    iteration args env st = Next st' /\
    clicks (log st') = (clicks (log st) + if load_more env then 1 else 0)%nat /\
    queries (log st') = S (queries (log st)).
Proof.
  intros Hidle. unfold iteration. rewrite Hidle.
  destruct (random (rng st)) as [u g1].
  destruct (integers 1000 2000 g1) as [ms g2].
  eexists. split; [reflexivity|]. cbn [log].
  destruct (_ =? 0); rewrite ?clicks_app, ?queries_app;
    destruct (scroll_choice u), (load_more env); cbn; lia.
Qed.

Lemma iteration_accounted args session st :
  done st = false ->
  accounted args session st ->
  match iteration args (browser session (iterations st)) st with
  | Next st' => accounted args session st'
  | Throw _ st' => accounted args session st' /\ done st' = false
  end.
Proof.
  intros Hdone (Hc & Hpc & Hcl & Hq & Hclose & Hhist & Hd).
  destruct (network_idle (browser session (iterations st))) eqn:Hidle.
  - destruct (iteration_next_actions args _ st Hidle) as (st1 & Hit & Hcl1 & Hq1).
    destruct (iteration_next args _ st Hidle)
      as (st1' & Hit' & Hn & Hc1 & Hpc1 & Hd1 & _ & _ & _ & Hclose1).
    rewrite Hit in Hit'. injection Hit' as <-. rewrite Hit.
    unfold accounted. rewrite Hn. cbn [admitted_by idle_streak buttons].
    assert (Hstop : done st1 = true <-> stops_at args session (S (iterations st))).
    { rewrite Hd1, orb_true_iff, !Z.geb_le, Hc1, Hpc1, Hc, Hpc.
      unfold stops_at. cbn [admitted_by idle_streak]. done. }
    split_and!; [by rewrite Hc1, Hc|by rewrite Hpc1, Hpc|by rewrite Hcl1, Hcl
                |by rewrite Hq1, Hq|tauto| |done].
    intros k Hk. destruct (decide (k = iterations st)) as [->|Hne].
    + destruct (iterations st); [lia|]. rewrite <- Hd. by rewrite Hdone.
    + apply Hhist. lia.
  - rewrite (iteration_throw args _ st Hidle). split; [|done].
    unfold accounted; cbn [log scrapes patience_counter iterations done].
    rewrite clicks_app, queries_app, in_app_iff.
    split_and!; [done|done|cbn; lia|cbn; lia| |done|done].
    cbn. intuition discriminate.
Qed.

Lemma while_not_done_accounted (fuel : nat) args session st :
  accounted args session st ->
  accounted args session (final (while_not_done fuel args (browser session) st)) /\
  match while_not_done fuel args (browser session) st with
  | Finished st' => done st' = true
  | Aborted _ st' | OutOfFuel st' => done st' = false
  end.
Proof.
  revert st. induction fuel as [|fuel IH]; intros st Hacc; cbn.
  - by destruct (done st) eqn:Hdone.
  - destruct (done st) eqn:Hdone; [done|].
    pose proof (iteration_accounted args session st Hdone Hacc) as Hstep.
    destruct (iteration args (browser session (iterations st)) st) as [st'|e st'].
    + by apply IH.
    + done.
Qed.

Lemma main_accounted (fuel : nat) args session :
  exists st,
    accounted args session st /\
    match main fuel args session with
    | Finished st' => st' = close st /\ done st = true
    | Aborted _ st' | OutOfFuel st' => st' = st /\ done st = false
    end.
Proof.
  rewrite main_unfold.
  match goal with |- context [while_not_done _ _ _ ?st0] =>
    destruct (while_not_done_accounted fuel args session st0) as [Hacc Hdone]
  end.
  { unfold accounted; cbn. split_and!; try done; [tauto|]. intros k Hk. lia. }
  destruct (while_not_done _ _ _ _) as [st|e st|st]; cbn in *; by exists st.
Qed.

(** X8.  A run that leaves the loop through [done] after [n] iterations
    has [n >= 1]; its counter is the number of images admitted up to
    iteration [n] and its patience counter the number of iterations in a
    row without a new image; the target is reached or the patience ceiling
    is, and neither was after any earlier iteration. *)
Theorem loop_stops_at_the_first_chance args session (fuel : nat) (st : Loop) :
  main fuel args session = Finished st ->
  (1 <= iterations st)%nat /\
  scrapes st = admitted_by session (iterations st) /\
  patience_counter st = idle_streak (browser session) (iterations st) /\
  (number_of_images args <= scrapes st \/ patience args <= patience_counter st) /\
  (forall k, (1 <= k < iterations st)%nat ->
     admitted_by session k < number_of_images args /\
     idle_streak (browser session) k < patience args).
Proof.
  intros Hrun. destruct (main_accounted fuel args session) as (st0 & Hacc & Hm).
  rewrite Hrun in Hm. destruct Hm as [-> Hdone].
  destruct Hacc as (Hc & Hpc & _ & _ & _ & Hhist & Hd). cbn.
  destruct (iterations st0) as [|n] eqn:Hn; [congruence|].
  rewrite <- Hn in *. apply Hd in Hdone. unfold stops_at in Hdone.
  split_and!; [lia|done|done|by rewrite Hc, Hpc|].
  intros k Hk. specialize (Hhist k Hk). unfold stops_at in Hhist. lia.
Qed.

(** X9.  If after some iteration [K] the target is reached or the
    patience ceiling is, and no wait times out before, the run leaves the
    loop through [done] after at most [K] iterations. *)
Theorem loop_stops_in_time args session (K fuel : nat) :
  (forall i, (i < K)%nat -> network_idle (browser session i) = true) ->
  (1 <= K <= fuel)%nat ->
  stops_at args session K ->
  exists st, main fuel args session = Finished st /\ (iterations st <= K)%nat.
Proof.
  intros Hidle HK Hstop.
  destruct (main_accounted fuel args session) as (st0 & Hacc & Hm).
  assert (Hrun : forall (f : nat) (st : Loop),
    accounted args session st -> done st = false ->
    (iterations st < K)%nat -> (K - iterations st <= f)%nat ->
    exists st', while_not_done f args (browser session) st = Finished st' /\
                (iterations st' <= K)%nat).
  { clear st0 Hacc Hm. induction f as [|f IH]; intros st Hacc Hdone Hlt Hf; [lia|].
    cbn. rewrite Hdone.
    pose proof (iteration_accounted args session st Hdone Hacc) as Hstep.
    destruct (iteration_next args _ st (Hidle _ Hlt)) as (st1 & Hit & Hn & _).
    rewrite Hit in *. destruct (done st1) eqn:Hd1.
    - exists st1. split; [|lia]. destruct f; cbn; by rewrite Hd1.
    - apply IH; [done|done| |lia].
      destruct (decide (S (iterations st) = K)) as [HeqK|]; [|lia].
      destruct Hstep as (_ & _ & _ & _ & _ & _ & Hd). rewrite Hn, HeqK in Hd.
      apply Hd in Hstop. congruence. }
  rewrite main_unfold.
  match goal with |- context [while_not_done _ _ _ ?st0] =>
    destruct (Hrun fuel st0) as (st' & -> & Hle)
  end; cbn; try done; try lia.
  - unfold accounted; cbn. split_and!; try done; [tauto|]. intros k Hk. lia.
  - by exists (close st').
Qed.

(** X10.  A run that leaves the loop through [done] closes the browser as
    its last action and only then; a run ended by an exception never
    closes it. *)
Theorem browser_is_closed_once_at_the_end args session (fuel : nat) :
  match main fuel args session with
  | Finished st => exists l, log st = l ++ [Close] /\ ~ In Close l
  | Aborted _ st | OutOfFuel st => ~ In Close (log st)
  end.
Proof.
  destruct (main_accounted fuel args session) as (st0 & Hacc & Hm).
  destruct Hacc as (_ & _ & _ & _ & Hclose & _).
  destruct (main fuel args session) as [st|e st|st]; destruct Hm as [-> _];
    [|done..].
  by exists (log st0).
Qed.

(** X11.  In every run, each completed iteration looks for the button
    once, scrolls once and pauses once, and the button is clicked exactly
    in the iterations in which the page shows it. *)
Theorem actions_per_iteration args session (fuel : nat) :
  let st := final (main fuel args session) in
  queries (log st) = iterations st /\
  length (scrolls (log st)) = iterations st /\
  length (pauses (log st)) = iterations st /\
  clicks (log st) = buttons (browser session) (iterations st).
Proof.
  intros st. subst st.
  destruct (main_paced fuel args session) as (_ & Hs & Hp).
  rewrite Hs, Hp, !length_fmap.
  assert (Hlen : forall n g, length (pacing n g) = n).
  { induction n as [|n IH]; intros g; [done|]. rewrite pacing_cons. cbn.
    by rewrite IH. }
  rewrite Hlen.
  destruct (main_accounted fuel args session) as (st0 & Hacc & Hm).
  destruct Hacc as (_ & _ & Hcl & Hq & _).
  destruct (main fuel args session) as [st|e st|st]; destruct Hm as [-> _];
    cbn [final close log iterations];
    rewrite ?clicks_app, ?queries_app, Hcl, Hq; cbn; rewrite ?Nat.add_0_r; done.
Qed.

(** X12.  A run of [n] completed iterations pauses for at least [1000 n]
    and at most [1999 n] milliseconds in all. *)
Theorem total_pause_bounds `{!GeneratorLaws} args session (fuel : nat) :
  let st := final (main fuel args session) in
  1000 * Z.of_nat (iterations st) <= total_pause (log st)
  <= 1999 * Z.of_nat (iterations st).
Proof.
  intros st. subst st.
  destruct (main_paced fuel args session) as (_ & _ & Hp).
  unfold total_pause. rewrite Hp.
  generalize (iterations (final (main fuel args session))) as n.
  generalize (default_rng (seed args)).
  intros g n. revert g. induction n as [|n IH]; intros g.
  - cbn. lia.
  - pose proof (pacing_pauses_range (S n) g) as Hrange.
    rewrite pacing_cons, fmap_cons in *. cbn [foldr].
    inversion Hrange as [|? ? Hhead _]; subst.
    specialize (IH (snd (draws g))). lia.
Qed.

End Accounts.

Lemma first_chance_witness :
  number_of_images (Stub.args 2 5)
    <= scrapes (final (main 10 (Stub.args 2 5) Stub.productive)) \/
  patience (Stub.args 2 5)
    <= patience_counter (final (main 10 (Stub.args 2 5) Stub.productive)).
Proof.
  apply (loop_stops_at_the_first_chance (Stub.args 2 5) Stub.productive 10
           (final (main 10 (Stub.args 2 5) Stub.productive))).
  reflexivity.
Defined.

Lemma stops_in_time_witness :
  exists st,
    main 10 (Stub.args 2 5) Stub.productive = Finished st /\
    (iterations st <= 2)%nat.
Proof.
  apply (loop_stops_in_time (Stub.args 2 5) Stub.productive 2 10).
  - intros i _. reflexivity.
  - lia.
  - left. cbn. lia.
Defined.

Lemma total_pause_witness :
  1000 * Z.of_nat (iterations (final (main 10 (Stub.args 5 3) Stub.stalled)))
  <= total_pause (log (final (main 10 (Stub.args 5 3) Stub.stalled)))
  <= 1999 * Z.of_nat (iterations (final (main 10 (Stub.args 5 3) Stub.stalled))).
Proof. exact (total_pause_bounds (Stub.args 5 3) Stub.stalled 10). Defined.

(** * The url of the search page *)

Lemma list_ascii_of_append (s t : string) :
  list_ascii_of_string (s +:+ t) = list_ascii_of_string s ++ list_ascii_of_string t.
Proof.
  induction s as [|c s IH]; [done|]. rewrite append_cons. cbn. by rewrite IH.
Qed.

Lemma quote_app (s t safe : string) :
  quote (s +:+ t) safe = quote s safe +:+ quote t safe.
Proof.
  induction s as [|c s IH]; [done|].
  rewrite append_cons. cbn [quote]. by rewrite IH, append_assoc.
Qed.

Lemma hex_upper_safe (n : N) : always_safe (hex_upper n) = true.
Proof.
  destruct n as [|p]; [done|].
  do 4 (destruct p as [p|p|]; try done).
Qed.

Lemma quote_length (s safe : string) :
  (String.length s <= String.length (quote s safe))%nat.
Proof.
  induction s as [|c s IH]; cbn [quote]; [done|].
  rewrite append_length. destruct (unquoted safe c); cbn; lia.
Qed.

Lemma quote_chars (s safe : string) :
  Forall (fun c => unquoted safe c = true \/ c = "%"%char)
    (list_ascii_of_string (quote s safe)).
Proof.
  induction s as [|c s IH]; cbn [quote]; [constructor|].
  rewrite list_ascii_of_append. apply Forall_app. split; [|done].
  destruct (unquoted safe c) eqn:Hc; cbn.
  - constructor; [by left|constructor].
  - assert (forall n, unquoted safe (hex_upper n) = true) as Hhex
      by (intros n; unfold unquoted; by rewrite hex_upper_safe).
    constructor; [by right|]. constructor; [by left|].
    constructor; [by left|constructor].
Qed.

Lemma quote_fixed (s safe : string) :
  quote s safe = s <-> Forall (fun c => unquoted safe c = true) (list_ascii_of_string s).
Proof.
  induction s as [|c s IH]; cbn [quote list_ascii_of_string].
  - split; [constructor|done].
  - rewrite Forall_cons, <- IH. destruct (unquoted safe c) eqn:Hc.
    + rewrite append_cons, append_nil. split; [by intros [= ->]|by intros [_ ->]].
    + split; [|by intros [? _]]. intros Heq.
      apply (f_equal String.length) in Heq. unfold percent_encode in Heq.
      rewrite !append_cons, append_nil in Heq. cbn in Heq.
      pose proof (quote_length s safe). lia.
Qed.

Lemma search_url_unfold (query : string) :
  search_url query
    = "https://www.flickr.com/search/?text=" +:+ quote query ":/?&=" +:+ "&view_all=1".
Proof. unfold search_url. by rewrite !quote_app. Qed.

(** X13.  The url the browser is sent to is the search address, the quoted
    query and [&view_all=1]; it consists of letters, digits and the
    characters [_.-~:/?&=%] only, whatever the query holds. *)
Theorem search_url_shape (query : string) :
  search_url query
    = "https://www.flickr.com/search/?text=" +:+ quote query ":/?&=" +:+ "&view_all=1" /\
  Forall (fun c => always_safe c = true \/ in_string c ":/?&=%" = true)
    (list_ascii_of_string (search_url query)).
Proof.
  split; [apply search_url_unfold|].
  - eapply Forall_impl; [apply quote_chars|]. intros c [Hc| ->]; [|by right].
    unfold unquoted in Hc. apply orb_true_iff in Hc as [Hc|Hc]; [by left|right].
    unfold in_string in *. cbn in *. by rewrite !orb_true_iff in *; tauto.
Qed.

(** X14.  The query reaches the url as it was typed exactly when it is
    made of letters, digits and the characters [_.-~:/?&=]: a query with
    [&] or [=] is not escaped, every other character is. *)
Theorem search_url_keeps_safe_queries (query : string) :
  search_url query
    = "https://www.flickr.com/search/?text=" +:+ query +:+ "&view_all=1" <->
  Forall (fun c => always_safe c = true \/ in_string c ":/?&=" = true)
    (list_ascii_of_string query).
Proof.
  rewrite search_url_unfold. split.
  - intros Heq. apply (inj (String.app _)) in Heq. apply append_inj_l in Heq.
    apply quote_fixed in Heq. eapply Forall_impl; [exact Heq|].
    intros c Hc. by apply orb_true_iff in Hc.
  - intros Hsafe. do 2 f_equal. apply quote_fixed.
    eapply Forall_impl; [exact Hsafe|]. intros c Hc. by apply orb_true_iff.
Qed.

